(** * The AI agent execution gateway of the Meti backend (server/index.js)

    A shallow embedding of the [/api/ai/execute] route, of the agent table
    [AI_AGENTS] it dispatches on and of the sanitizer [cleanInput], together
    with the properties the specification states about them.

    Conventions of the embedding.
    - A JavaScript string is the list of its UTF-16 code units ([jsstring]);
      [length], [slice], the regular expressions of the source (none has the
      [u] flag) and [===] all work on code units.
    - A JavaScript value that can come out of [JSON.parse] (the request body,
      the payload, the parsed model output) is a [jsval].  A number is kept as
      an exact decimal [m * 10^e]; rounding to IEEE doubles is not modelled.
    - The user collection of MongoDB is a finite map from ids to users;
      its two operations always complete.  The counter [usage.tokensUsed]
      is an integer.
    - The generative backend is a function from the request it is sent to
      its answer or its rejection.
    - The agent of a request is whatever value the body holds under that
      name, a string or not; the agent table is indexed with it as the
      language does, after its conversion to a property key, and it is
      compared with [===].
    - The route handler runs in a small monad that threads the user
      collection and the trace of external effects, and that can answer the
      request early or throw. *)

From Stdlib Require Import ZArith NArith List Ascii String Lia Bool.
From Stdlib Require Import DecimalString.
From stdpp Require Import base option list gmap sorting.

Local Open Scope N_scope.
Local Set Warnings "-register-all,-abstract-large-number".

(** ** JavaScript strings *)

Definition jsstring := list N.

(** The code units of an ASCII literal of the source. *)
Definition lit (s : string) : jsstring :=
  List.map N_of_ascii (list_ascii_of_string s).

Fixpoint str_eqb (a b : jsstring) : bool :=
  match a, b with
  | [], [] => true
  | x :: a', y :: b' => N.eqb x y && str_eqb a' b'
  | _, _ => false
  end.

(** [String.prototype.slice(b, e)] for non-negative arguments. *)
Definition slice (b e : nat) (s : jsstring) : jsstring :=
  take (e - b) (drop b s).

(** ** Input sanitization *)

(** The character class [[\u0000-\u001F\u007F-\u009F]]. *)
Definition is_control (c : N) : bool :=
  (c <=? 31) || ((127 <=? c) && (c <=? 159)).

(** [str.replace(/[\u0000-\u001F\u007F-\u009F]/g, "")]: every code unit of
    the class is replaced by the empty string, left to right. *)
Fixpoint replace_control (s : jsstring) : jsstring :=
  match s with
  | [] => []
  | c :: s' => if is_control c then replace_control s' else c :: replace_control s'
  end.

(** ** JavaScript values *)

(** The values [JSON.parse] can build, and [undefined].  [JNum m e] is the
    number [m * 10^e].  The properties of an object are listed in the order
    in which JavaScript enumerates them. *)
Inductive jsval : Type :=
| JUndefined
| JNull
| JBool (b : bool)
| JNum (m e : Z)
| JStr (s : jsstring)
| JArr (elems : list jsval)
| JObj (props : list (jsstring * jsval)).

(** [const cleanInput = (str) => { if (typeof str !== 'string') return '';
    return str.replace(/[\u0000-\u001F\u007F-\u009F]/g, "").slice(0, 5000); }] *)
Definition cleanInput (str : jsval) : jsstring :=
  match str with
  | JStr s => slice 0 5000 (replace_control s)
  | _ => []
  end.

(** Errors a JavaScript computation can throw. *)
Inductive JsError : Type :=
| TypeError               (* property of undefined/null, call of a non-function *)
| SyntaxError             (* JSON.parse *)
| BackendError (msg : jsstring).  (* rejection of the generateContent promise *)

Inductive exn (A : Type) : Type :=
| Ok (a : A)
| Throw (e : JsError).
Arguments Ok {A} a.
Arguments Throw {A} e.

Definition exn_bind {A B} (c : exn A) (k : A -> exn B) : exn B :=
  match c with
  | Ok a => k a
  | Throw e => Throw e
  end.

Declare Scope exn_scope.
Delimit Scope exn_scope with exn.
Notation "'let!' x ':=' c 'in' k" := (exn_bind c (fun x => k))
  (at level 10, x name, c at level 100, k at level 200) : exn_scope.

(** Own property of an object given by its property list. *)
Fixpoint get_own {A} (o : list (jsstring * A)) (k : jsstring) : option A :=
  match o with
  | [] => None
  | (k', a) :: o' => if str_eqb k k' then Some a else get_own o' k
  end.

(** [d.name] on a value of the payload.  Reading a property of [undefined]
    or [null] throws; a missing property reads as [undefined].  The names
    the source reads ([productName], [persona], [history], ...) are defined
    on none of the built-in prototypes, so only own properties matter. *)
Definition get (d : jsval) (name : string) : exn jsval :=
  match d with
  | JUndefined | JNull => Throw TypeError
  | JObj props =>
      match get_own props (lit name) with
      | Some v => Ok v
      | None => Ok JUndefined
      end
  | _ => Ok JUndefined
  end.

(** ** [JSON.stringify] *)

Definition dq : jsstring := [34].          (* the double quote *)
Definition backslash : N := 92.

Definition hex_digit (n : N) : N :=
  if n <? 10 then 48 + n else 87 + n.      (* 0-9, a-f *)

(** [\uXXXX] with lower-case hexadecimal digits. *)
Definition unicode_escape (c : N) : jsstring :=
  [backslash; 117; hex_digit (c / 4096 mod 16); hex_digit (c / 256 mod 16);
   hex_digit (c / 16 mod 16); hex_digit (c mod 16)].

Definition is_high_surrogate (c : N) : bool := (55296 <=? c) && (c <=? 56319).
Definition is_low_surrogate (c : N) : bool := (56320 <=? c) && (c <=? 57343).

(** QuoteJSONString without the surrounding quotes: the short escapes, a
    [\u] escape for the other code units below U+0020 and for lone
    surrogates, everything else (among them U+007F to U+009F) verbatim.
    [paired] tells that the previous unit was a high surrogate that this
    unit completes. *)
Fixpoint quote_units (paired : bool) (s : jsstring) : jsstring :=
  match s with
  | [] => []
  | c :: s' =>
      if c =? 8 then [backslash; 98] ++ quote_units false s'
      else if c =? 9 then [backslash; 116] ++ quote_units false s'
      else if c =? 10 then [backslash; 110] ++ quote_units false s'
      else if c =? 12 then [backslash; 102] ++ quote_units false s'
      else if c =? 13 then [backslash; 114] ++ quote_units false s'
      else if c =? 34 then [backslash; 34] ++ quote_units false s'
      else if c =? 92 then [backslash; 92] ++ quote_units false s'
      else if c <? 32 then unicode_escape c ++ quote_units false s'
      else if is_high_surrogate c then
        match s' with
        | c' :: _ =>
            if is_low_surrogate c' then c :: quote_units true s'
            else unicode_escape c ++ quote_units false s'
        | [] => unicode_escape c
        end
      else if is_low_surrogate c then
        if paired then c :: quote_units false s'
        else unicode_escape c ++ quote_units false s'
      else c :: quote_units false s'
  end.

Definition quote (s : jsstring) : jsstring := dq ++ quote_units false s ++ dq.

Definition digits_of (n : N) : jsstring :=
  lit (NilZero.string_of_uint (N.to_uint n)).

Fixpoint drop_zeros (s : jsstring) : jsstring :=
  match s with
  | c :: s' => if c =? 48 then drop_zeros s' else s
  | [] => []
  end.

(** Number::toString of [m * 10^e], following the case analysis of the
    language specification on the significant digits [s], their number [k]
    and the position [n] of the decimal point. *)
Definition number_to_string (m e : Z) : jsstring :=
  if (m =? 0)%Z then lit "0"
  else
    let all := digits_of (Z.abs_N m) in
    let s := List.rev (drop_zeros (List.rev all)) in
    let k := Z.of_nat (length s) in
    let n := (Z.of_nat (length all) + e)%Z in
    let sign := if (m <? 0)%Z then lit "-" else [] in
    let zeros (z : Z) := List.repeat 48 (Z.to_nat z) in
    let expo :=
      (if (n - 1 <? 0)%Z then lit "e-" else lit "e+") ++ digits_of (Z.abs_N (n - 1)) in
    sign ++
    (if ((k <=? n) && (n <=? 21))%Z then s ++ zeros (n - k)%Z
     else if ((0 <? n) && (n <=? 21))%Z then
       take (Z.to_nat n) s ++ lit "." ++ drop (Z.to_nat n) s
     else if ((-6 <? n) && (n <=? 0))%Z then lit "0." ++ zeros (- n)%Z ++ s
     else if (k =? 1)%Z then s ++ expo
     else take 1 s ++ lit "." ++ drop 1 s ++ expo).

Fixpoint join (sep : jsstring) (l : list jsstring) : jsstring :=
  match l with
  | [] => []
  | [x] => x
  | x :: l' => x ++ sep ++ join sep l'
  end.

(** SerializeJSONProperty: [None] is the result [undefined]. *)
Fixpoint stringify (v : jsval) : option jsstring :=
  match v with
  | JUndefined => None
  | JNull => Some (lit "null")
  | JBool true => Some (lit "true")
  | JBool false => Some (lit "false")
  | JNum m e => Some (number_to_string m e)
  | JStr s => Some (quote s)
  | JArr elems =>
      (* an element that serializes to undefined is written null *)
      Some (lit "[" ++
            join (lit ",") (List.map (fun x => default (lit "null") (stringify x)) elems) ++
            lit "]")
  | JObj props =>
      (* a property whose value serializes to undefined is left out *)
      let member (p : jsstring * jsval) : list jsstring :=
        match stringify (snd p) with
        | Some t => [quote (fst p) ++ lit ":" ++ t]
        | None => []
        end in
      Some (lit "{" ++ join (lit ",") (List.concat (List.map member props)) ++ lit "}")
  end.

(** [JSON.stringify(v)] inside a template literal: [undefined] prints as
    the word. *)
Definition JSON_stringify_text (v : jsval) : jsstring :=
  default (lit "undefined") (stringify v).

(** ** [JSON.parse] *)

(** The parser is a lexer followed by a pushdown recognizer, both of them
    one pass over their input, so that parsing is total. *)

Inductive token : Type :=
| TLBrace | TRBrace | TLBrack | TRBrack | TColon | TComma
| TStr (s : jsstring)
| TNum (m e : Z)
| TTrue | TFalse | TNull.

Fixpoint span_digits (s : jsstring) : jsstring * jsstring :=
  match s with
  | c :: s' =>
      if (48 <=? c) && (c <=? 57) then
        let '(d, r) := span_digits s' in (c :: d, r)
      else ([], s)
  | [] => ([], [])
  end.

Definition digits_value (d : jsstring) : Z :=
  fold_left (fun acc c => (10 * acc + Z.of_N (c - 48))%Z) d 0%Z.

(** The decimal [m * 10^e] without trailing zeros in [m]. *)
Definition normalize_decimal (neg : bool) (digits : jsstring) (e : Z) : Z * Z :=
  let kept := List.rev (drop_zeros (List.rev digits)) in
  let m := digits_value kept in
  if (m =? 0)%Z then (0, 0)%Z
  else ((if neg then - m else m)%Z,
        (e + Z.of_nat (length digits) - Z.of_nat (length kept))%Z).

(** A JSON number, matched against a whole word: an optional minus sign;
    an integer part that is the digit 0 alone or starts with a digit from
    1 to 9; an optional fraction, a dot and at least one digit; an optional
    exponent, the letter e or E, an optional sign and at least one digit. *)
Definition parse_number (w : jsstring) : option (Z * Z) :=
  let '(neg, w1) :=
    match w with
    | c :: w' => if c =? 45 then (true, w') else (false, w)
    | [] => (false, w)
    end in
  let '(ip, w2) := span_digits w1 in
  let int_ok :=
    match ip with
    | [] => false
    | [_] => true
    | c :: _ => negb (c =? 48)
    end in
  if negb int_ok then None
  else
    let frac :=
      match w2 with
      | c :: w' =>
          if c =? 46 then
            let '(fp, w3) := span_digits w' in
            match fp with [] => None | _ => Some (fp, w3) end
          else Some ([], w2)
      | [] => Some ([], [])
      end in
    match frac with
    | None => None
    | Some (fp, w3) =>
        let finish (ex : Z) :=
          Some (normalize_decimal neg (ip ++ fp) (ex - Z.of_nat (length fp))%Z) in
        match w3 with
        | [] => finish 0%Z
        | c :: w4 =>
            if (c =? 101) || (c =? 69) then
              let '(eneg, w5) :=
                match w4 with
                | s :: w' =>
                    if s =? 45 then (true, w')
                    else if s =? 43 then (false, w') else (false, w4)
                | [] => (false, w4)
                end in
              match span_digits w5 with
              | ([], _) => None
              | (ep, []) =>
                  finish (if eneg then - digits_value ep else digits_value ep)%Z
              | (_, _ :: _) => None
              end
            else None
        end
    end.

(** A maximal run of letters, digits, signs and dots is one word: a
    literal name or a number. *)
Definition is_word_char (c : N) : bool :=
  ((48 <=? c) && (c <=? 57)) || ((97 <=? c) && (c <=? 122)) ||
  ((65 <=? c) && (c <=? 90)) || (c =? 43) || (c =? 45) || (c =? 46).

Definition word_token (w : jsstring) : option token :=
  if str_eqb w (lit "true") then Some TTrue
  else if str_eqb w (lit "false") then Some TFalse
  else if str_eqb w (lit "null") then Some TNull
  else match parse_number w with
       | Some (m, e) => Some (TNum m e)
       | None => None
       end.

Definition hex_value (c : N) : option N :=
  if (48 <=? c) && (c <=? 57) then Some (c - 48)
  else if (97 <=? c) && (c <=? 102) then Some (c - 87)
  else if (65 <=? c) && (c <=? 70) then Some (c - 55)
  else None.

(** The character after a backslash, [u] apart. *)
Definition simple_escape (c : N) : option N :=
  if c =? 34 then Some 34
  else if c =? 92 then Some 92
  else if c =? 47 then Some 47
  else if c =? 98 then Some 8
  else if c =? 102 then Some 12
  else if c =? 110 then Some 10
  else if c =? 114 then Some 13
  else if c =? 116 then Some 9
  else None.

Inductive lexstate : Type :=
| LIdle
| LStr (acc : jsstring)                 (* in a string, units read so far, reversed *)
| LEsc (acc : jsstring)                 (* after a backslash *)
| LUni (acc : jsstring) (k : nat) (v : N)  (* in a \u escape, k+1 digits to go *)
| LWord (acc : jsstring).               (* in a word, reversed *)

(** JSON white space: tab, line feed, carriage return, space. *)
Definition is_json_ws (c : N) : bool :=
  (c =? 9) || (c =? 10) || (c =? 13) || (c =? 32).

Definition lex_idle (c : N) (out : list token) : option (lexstate * list token) :=
  if is_json_ws c then Some (LIdle, out)
  else if c =? 123 then Some (LIdle, TLBrace :: out)
  else if c =? 125 then Some (LIdle, TRBrace :: out)
  else if c =? 91 then Some (LIdle, TLBrack :: out)
  else if c =? 93 then Some (LIdle, TRBrack :: out)
  else if c =? 58 then Some (LIdle, TColon :: out)
  else if c =? 44 then Some (LIdle, TComma :: out)
  else if c =? 34 then Some (LStr [], out)
  else if is_word_char c then Some (LWord [c], out)
  else None.

Definition lex_step (st : lexstate) (out : list token) (c : N)
  : option (lexstate * list token) :=
  match st with
  | LIdle => lex_idle c out
  | LStr acc =>
      if c =? 34 then Some (LIdle, TStr (List.rev acc) :: out)
      else if c =? 92 then Some (LEsc acc, out)
      else if c <? 32 then None
      else Some (LStr (c :: acc), out)
  | LEsc acc =>
      if c =? 117 then Some (LUni acc 3 0, out)
      else match simple_escape c with
           | Some u => Some (LStr (u :: acc), out)
           | None => None
           end
  | LUni acc k v =>
      match hex_value c with
      | Some h =>
          match k with
          | O => Some (LStr ((16 * v + h) :: acc), out)
          | S k' => Some (LUni acc k' (16 * v + h), out)
          end
      | None => None
      end
  | LWord acc =>
      if is_word_char c then Some (LWord (c :: acc), out)
      else match word_token (List.rev acc) with
           | Some t => lex_idle c (t :: out)
           | None => None
           end
  end.

Fixpoint lex_from (st : lexstate) (out : list token) (s : jsstring) : option (list token) :=
  match s with
  | [] =>
      match st with
      | LIdle => Some (List.rev out)
      | LWord acc =>
          match word_token (List.rev acc) with
          | Some t => Some (List.rev (t :: out))
          | None => None
          end
      | _ => None
      end
  | c :: s' =>
      match lex_step st out c with
      | Some (st', out') => lex_from st' out' s'
      | None => None
      end
  end.

Definition lex (s : jsstring) : option (list token) := lex_from LIdle [] s.

(** Objects built by the parser.  A key that is an array index (a canonical
    decimal below 2^32 - 1) is enumerated before the other keys, in numeric
    order; the other keys keep the order of their first definition; a key
    defined twice keeps its place and takes the last value. *)
Definition array_index (k : jsstring) : option Z :=
  match span_digits k with
  | ([], _) => None
  | (d, []) =>
      let canonical := match d with [_] => true | c :: _ => negb (c =? 48) | [] => false end in
      if canonical && (digits_value d <=? 4294967294)%Z then Some (digits_value d) else None
  | (_, _ :: _) => None
  end.

Fixpoint replace_own (k : jsstring) (v : jsval) (props : list (jsstring * jsval))
  : option (list (jsstring * jsval)) :=
  match props with
  | [] => None
  | (k', v') :: ps =>
      if str_eqb k k' then Some ((k', v) :: ps)
      else match replace_own k v ps with
           | Some ps' => Some ((k', v') :: ps')
           | None => None
           end
  end.

Fixpoint insert_index (i : Z) (k : jsstring) (v : jsval) (props : list (jsstring * jsval))
  : list (jsstring * jsval) :=
  match props with
  | [] => [(k, v)]
  | (k', v') :: ps =>
      match array_index k' with
      | Some j => if (j <? i)%Z then (k', v') :: insert_index i k v ps else (k, v) :: props
      | None => (k, v) :: props
      end
  end.

Definition obj_set (k : jsstring) (v : jsval) (props : list (jsstring * jsval))
  : list (jsstring * jsval) :=
  match replace_own k v props with
  | Some props' => props'
  | None =>
      match array_index k with
      | Some i => insert_index i k v props
      | None => props ++ [(k, v)]
      end
  end.

(** An enclosing array or object whose next element is being read. *)
Inductive frame : Type :=
| FArr (acc : list jsval)                              (* elements so far, reversed *)
| FObj (acc : list (jsstring * jsval)) (key : jsstring).  (* properties so far, pending key *)

(** What the recognizer has to see next. *)
Inductive expect : Type :=
| EValue
| EValueOrClose
| EKeyOrClose
| EKey (acc : list (jsstring * jsval))
| EColon (acc : list (jsstring * jsval)) (key : jsstring)
| EAfterElem (acc : list jsval)
| EAfterMember (acc : list (jsstring * jsval))
| EDone (v : jsval).

Definition complete (v : jsval) (stack : list frame) : expect * list frame :=
  match stack with
  | [] => (EDone v, [])
  | FArr acc :: st => (EAfterElem (v :: acc), st)
  | FObj acc k :: st => (EAfterMember (obj_set k v acc), st)
  end.

Definition begin_value (t : token) (stack : list frame) : option (expect * list frame) :=
  match t with
  | TStr s => Some (complete (JStr s) stack)
  | TNum m e => Some (complete (JNum m e) stack)
  | TTrue => Some (complete (JBool true) stack)
  | TFalse => Some (complete (JBool false) stack)
  | TNull => Some (complete JNull stack)
  | TLBrack => Some (EValueOrClose, FArr [] :: stack)
  | TLBrace => Some (EKeyOrClose, stack)
  | _ => None
  end.

Definition parse_step (ex : expect) (stack : list frame) (t : token)
  : option (expect * list frame) :=
  match ex with
  | EValue => begin_value t stack
  | EValueOrClose =>
      match t, stack with
      | TRBrack, FArr _ :: st => Some (complete (JArr []) st)
      | TRBrack, _ => None
      | _, _ => begin_value t stack
      end
  | EKeyOrClose =>
      match t with
      | TRBrace => Some (complete (JObj []) stack)
      | TStr k => Some (EColon [] k, stack)
      | _ => None
      end
  | EKey acc =>
      match t with
      | TStr k => Some (EColon acc k, stack)
      | _ => None
      end
  | EColon acc k =>
      match t with
      | TColon => Some (EValue, FObj acc k :: stack)
      | _ => None
      end
  | EAfterElem acc =>
      match t with
      | TComma => Some (EValue, FArr acc :: stack)
      | TRBrack => Some (complete (JArr (List.rev acc)) stack)
      | _ => None
      end
  | EAfterMember acc =>
      match t with
      | TComma => Some (EKey acc, stack)
      | TRBrace => Some (complete (JObj acc) stack)
      | _ => None
      end
  | EDone _ => None
  end.

Fixpoint parse_from (ex : expect) (stack : list frame) (ts : list token) : option jsval :=
  match ts with
  | [] => match ex with EDone v => Some v | _ => None end
  | t :: ts' =>
      match parse_step ex stack t with
      | Some (ex', stack') => parse_from ex' stack' ts'
      | None => None
      end
  end.

(** [JSON.parse(text)]: [None] is a thrown [SyntaxError]. *)
Definition JSON_parse (text : jsstring) : option jsval :=
  match lex text with
  | Some ts => parse_from EValue [] ts
  | None => None
  end.

(** ** The string helpers of the fallback *)

Fixpoint starts_with (p s : jsstring) : bool :=
  match p, s with
  | [], _ => true
  | x :: p', y :: s' => (x =? y) && starts_with p' s'
  | _ :: _, [] => false
  end.

Definition fence : jsstring := lit "```".
Definition fence_json : jsstring := lit "```json".

(** [text.replace(/```json|```/g, '')]: at each position the alternatives
    are tried in order; a match is dropped and the scan resumes after it.
    [skip] counts the units of the current match still to drop. *)
Fixpoint replace_fences (skip : nat) (s : jsstring) : jsstring :=
  match s with
  | [] => []
  | c :: s' =>
      match skip with
      | S k => replace_fences k s'
      | O =>
          if starts_with fence_json s then replace_fences 6 s'
          else if starts_with fence s then replace_fences 2 s'
          else c :: replace_fences 0 s'
      end
  end.

(** White space and line terminators of the language, as [trim] sees them. *)
Definition is_js_space (c : N) : bool :=
  (c =? 9) || (c =? 10) || (c =? 11) || (c =? 12) || (c =? 13) || (c =? 32) ||
  (c =? 160) || (c =? 5760) || ((8192 <=? c) && (c <=? 8202)) ||
  (c =? 8232) || (c =? 8233) || (c =? 8239) || (c =? 8287) || (c =? 12288) ||
  (c =? 65279).

Fixpoint trim_start (s : jsstring) : jsstring :=
  match s with
  | c :: s' => if is_js_space c then trim_start s' else s
  | [] => []
  end.

Definition trim (s : jsstring) : jsstring :=
  List.rev (trim_start (List.rev (trim_start s))).

(** ** Objects and their prototype *)

(** The names every object literal inherits from [Object.prototype]. *)
Definition object_prototype_keys : list jsstring :=
  List.map lit
    ["constructor"; "__defineGetter__"; "__defineSetter__"; "hasOwnProperty";
     "__lookupGetter__"; "__lookupSetter__"; "isPrototypeOf";
     "propertyIsEnumerable"; "toString"; "valueOf"; "__proto__";
     "toLocaleString"]%string.

(** The result of [o[k]] on an object literal [o]: an own property, a
    member of [Object.prototype] (a function, or the prototype itself for
    [__proto__]; an object in each case, hence truthy), or [undefined]. *)
Inductive propval (A : Type) : Type :=
| Own (a : A)
| Inherited (k : jsstring)
| Absent.
Arguments Own {A} a.
Arguments Inherited {A} k.
Arguments Absent {A}.

Definition obj_get {A} (o : list (jsstring * A)) (k : jsstring) : propval A :=
  match get_own o k with
  | Some a => Own a
  | None => if existsb (str_eqb k) object_prototype_keys then Inherited k else Absent
  end.

(** ** Property keys *)

(** [all_ok l]: the values of [l] when none of its computations throws,
    the first error otherwise. *)
Fixpoint all_ok {A} (l : list (exn A)) : exn (list A) :=
  match l with
  | [] => Ok []
  | Ok a :: l' =>
      match all_ok l' with
      | Ok r => Ok (a :: r)
      | Throw e => Throw e
      end
  | Throw e :: _ => Throw e
  end.

(** ToString of a value that [JSON.parse] can build, or of [undefined], as
    [o[v]] applies it to [v].
    - An array is joined with commas ([Array.prototype.toString] calls
      [join]), an element that is [undefined] or [null] giving the empty
      string and every other element its own ToString.
    - An object prints as [[object Object]] through
      [Object.prototype.toString], unless it has an own property
      [toString]: that property, a parsed value, is not callable, the
      inherited [valueOf] returns the object itself (and an own [valueOf]
      is not callable either), so that the conversion throws a
      [TypeError]. *)
Fixpoint to_property_key (v : jsval) : exn jsstring :=
  match v with
  | JUndefined => Ok (lit "undefined")
  | JNull => Ok (lit "null")
  | JBool true => Ok (lit "true")
  | JBool false => Ok (lit "false")
  | JNum m e => Ok (number_to_string m e)
  | JStr s => Ok s
  | JArr elems =>
      match all_ok (List.map (fun x => match x with
                                       | JUndefined | JNull => Ok []
                                       | _ => to_property_key x
                                       end) elems) with
      | Ok parts => Ok (join (lit ",") parts)
      | Throw e => Throw e
      end
  | JObj props =>
      match get_own props (lit "toString") with
      | Some _ => Throw TypeError
      | None => Ok (lit "[object Object]")
      end
  end.

(** [o[v]] on an object literal [o], for a value [v]. *)
Definition obj_at {A} (o : list (jsstring * A)) (v : jsval) : exn (propval A) :=
  match to_property_key v with
  | Ok k => Ok (obj_get o k)
  | Throw e => Throw e
  end.

(** [v === 'name'] *)
Definition strict_eq_string (v : jsval) (name : string) : bool :=
  match v with
  | JStr s => str_eqb s (lit name)
  | _ => false
  end.

(** ** The agent table *)

Inductive Schema : Type :=
| SchString
| SchInteger
| SchNumber
| SchArray (items : Schema)
| SchObject (properties : list (string * Schema)).

Inductive Tool : Type := googleMaps | googleSearch.

#[export] Instance Tool_eq_dec : EqDecision Tool.
Proof. solve_decision. Defined.

Record AgentConfig : Type := {
  model : jsstring;
  prompt : jsval -> exn jsstring;
  schema : option Schema;
  tools : option (list Tool)
}.

Local Open Scope exn_scope.
Local Open Scope string_scope.
Local Open Scope list_scope.
Arguments lit s%_string.
Arguments get d name%_string.

(** [a || b] on strings: the empty string is falsy. *)
Definition str_or (a b : jsstring) : jsstring :=
  match a with [] => b | _ => a end.

Module Prompt.

Definition niche (d : jsval) : exn jsstring :=
  let! productName := get d "productName" in
  let! description := get d "description" in
  Ok (lit "Analyze product: " ++ dq ++ cleanInput productName ++ dq ++
      lit ". Desc: " ++ cleanInput description ++
      lit ". Identify 3 profitable niches. Return valid JSON.").

Definition persona (d : jsval) : exn jsstring :=
  let! productName := get d "productName" in
  let! niche := get d "niche" in
  let! refinement := get d "refinement" in
  Ok (lit "Build ICP for " ++ dq ++ cleanInput productName ++ dq ++
      lit " in niche " ++ dq ++ cleanInput niche ++ dq ++
      lit ". Refinement: " ++ str_or (cleanInput refinement) (lit "None") ++
      lit ". Return JSON.").

Definition magnets (d : jsval) : exn jsstring :=
  let! persona := get d "persona" in
  let! productName := get d "productName" in
  Ok (lit "3 Lead magnet ideas for " ++ cleanInput persona ++
      lit " related to " ++ cleanInput productName ++ lit ". Return JSON.").

Definition maps_scout (d : jsval) : exn jsstring :=
  let! niche := get d "niche" in
  let! location := get d "location" in
  Ok (lit "Find 5 verified business leads for " ++ dq ++ cleanInput niche ++ dq ++
      lit " in " ++ dq ++ cleanInput location ++ dq ++ lit ".").

Definition social_search (d : jsval) : exn jsstring :=
  let! persona := get d "persona" in
  let! jobTitle := get persona "jobTitle" in
  let! niche := get d "niche" in
  Ok (lit "Generate 3 Boolean Search Strings for " ++ cleanInput jobTitle ++
      lit " in " ++ cleanInput niche ++ lit ". Return JSON.").

Definition landing_page (d : jsval) : exn jsstring :=
  let! productName := get d "productName" in
  let! persona := get d "persona" in
  let! jobTitle := get persona "jobTitle" in
  Ok (lit "Write landing page copy for " ++ cleanInput productName ++
      lit ". Target: " ++ cleanInput jobTitle ++ lit ". Return JSON.").

Definition ad_creatives (d : jsval) : exn jsstring :=
  let! productName := get d "productName" in
  Ok (lit "Generate 3 ad creatives for " ++ cleanInput productName ++
      lit ". Return JSON.").

Definition seo_audit (d : jsval) : exn jsstring :=
  let! url := get d "url" in
  Ok (lit "Audit SEO for " ++ cleanInput url ++
      lit ". Identify technical issues. Return JSON.").

Definition seo_keywords (d : jsval) : exn jsstring :=
  let! seed := get d "seed" in
  let! niche := get d "niche" in
  Ok (lit "Keyword strategy for " ++ dq ++ cleanInput seed ++ dq ++
      lit " niche " ++ dq ++ cleanInput niche ++ dq ++ lit ". Return JSON.").

Definition chat_reply (d : jsval) : exn jsstring :=
  let! persona := get d "persona" in
  let! jobTitle := get persona "jobTitle" in
  let! productName := get d "productName" in
  let! history := get d "history" in
  Ok (lit "Roleplay as " ++ cleanInput jobTitle ++
      lit ". Product: " ++ cleanInput productName ++
      lit ". History: " ++ JSON_stringify_text history ++ lit ". Reply short.").

Definition follow_up (d : jsval) : exn jsstring :=
  let! productName := get d "productName" in
  Ok (lit "3 email sequence for " ++ cleanInput productName ++ lit ". Return JSON.").

Definition qualification (d : jsval) : exn jsstring :=
  let! productName := get d "productName" in
  Ok (lit "5 BANT questions for " ++ cleanInput productName ++ lit ". Return JSON.").

Definition cold_dms (d : jsval) : exn jsstring :=
  let! persona := get d "persona" in
  let! jobTitle := get persona "jobTitle" in
  Ok (lit "3 cold DMs for " ++ cleanInput jobTitle ++
      lit ". Return JSON array of strings.").

Definition email_campaign (d : jsval) : exn jsstring :=
  let! topic := get d "topic" in
  let! goal := get d "goal" in
  Ok (lit "Write email body: " ++ dq ++ cleanInput topic ++ dq ++
      lit " Goal: " ++ dq ++ cleanInput goal ++ dq ++ lit ". Return JSON.").

Definition email_subjects (d : jsval) : exn jsstring :=
  let! topic := get d "topic" in
  Ok (lit "5 subject lines for " ++ dq ++ cleanInput topic ++ dq ++
      lit ". Return JSON array strings.").

Definition objection_handler (d : jsval) : exn jsstring :=
  let! objection := get d "objection" in
  Ok (lit "3 rebuttals for: " ++ dq ++ cleanInput objection ++ dq ++
      lit ". Return JSON array strings.").

Definition content_score (d : jsval) : exn jsstring :=
  let! keyword := get d "keyword" in
  let! content := get d "content" in
  Ok (lit "Analyze SEO content for " ++ dq ++ cleanInput keyword ++ dq ++
      lit ": " ++ dq ++ slice 0 2000 (cleanInput content) ++ dq ++
      lit ". Return JSON.").

End Prompt.

Definition flash : jsstring := lit "gemini-2.5-flash".
Definition pro_preview : jsstring := lit "gemini-3-pro-preview".

Definition strings : Schema := SchArray SchString.
Definition records (properties : list (string * Schema)) : Schema :=
  SchArray (SchObject properties).

(** [const AI_AGENTS = { niche: {...}, persona: {...}, ... }], the own
    properties in the order of the source. *)
Definition AI_AGENTS : list (jsstring * AgentConfig) :=
  [ (lit "niche",
     {| model := flash; prompt := Prompt.niche; tools := None;
        schema := Some (records [("name", SchString); ("profitabilityScore", SchInteger);
                                 ("reasoning", SchString); ("marketSizeEstimate", SchString)]) |});
    (lit "persona",
     {| model := pro_preview; prompt := Prompt.persona; tools := None;
        schema := Some (SchObject [("jobTitle", SchString); ("ageRange", SchString);
                                   ("psychographics", strings); ("painPoints", strings);
                                   ("goals", strings); ("buyingTriggers", strings)]) |});
    (lit "magnets",
     {| model := flash; prompt := Prompt.magnets; tools := None;
        schema := Some (records [("title", SchString); ("type", SchString);
                                 ("hook", SchString); ("description", SchString)]) |});
    (lit "maps_scout",
     {| model := flash; prompt := Prompt.maps_scout; tools := Some [googleMaps];
        schema := None |});
    (lit "social_search",
     {| model := flash; prompt := Prompt.social_search; tools := None;
        schema := Some (records [("platform", SchString); ("query", SchString);
                                 ("explanation", SchString); ("directUrl", SchString)]) |});
    (lit "landing_page",
     {| model := pro_preview; prompt := Prompt.landing_page; tools := None;
        schema := Some (SchObject
          [("headline", SchString); ("subheadline", SchString);
           ("ctaPrimary", SchString); ("ctaSecondary", SchString);
           ("benefits", records [("title", SchString); ("description", SchString)]);
           ("heroImagePrompt", SchString);
           ("socialProof", records [("name", SchString); ("quote", SchString);
                                    ("role", SchString)])]) |});
    (lit "ad_creatives",
     {| model := flash; prompt := Prompt.ad_creatives; tools := None;
        schema := Some (records [("platform", SchString); ("headline", SchString);
                                 ("adCopy", SchString); ("hashtags", strings);
                                 ("visualPrompt", SchString)]) |});
    (lit "seo_audit",
     {| model := flash; prompt := Prompt.seo_audit; tools := Some [googleSearch];
        schema := Some (records [("severity", SchString); ("category", SchString);
                                 ("issue", SchString); ("recommendation", SchString)]) |});
    (lit "seo_keywords",
     {| model := flash; prompt := Prompt.seo_keywords; tools := None;
        schema := Some (records [("keyword", SchString); ("intent", SchString);
                                 ("volume", SchString); ("difficulty", SchInteger);
                                 ("opportunityScore", SchInteger)]) |});
    (lit "chat_reply",
     {| model := flash; prompt := Prompt.chat_reply; tools := None; schema := None |});
    (lit "follow_up",
     {| model := flash; prompt := Prompt.follow_up; tools := None;
        schema := Some (records [("subject", SchString); ("previewText", SchString);
                                 ("body", SchString); ("sendDelay", SchString)]) |});
    (lit "qualification",
     {| model := flash; prompt := Prompt.qualification; tools := None;
        schema := Some (records [("question", SchString); ("intent", SchString);
                                 ("idealAnswer", SchString)]) |});
    (lit "cold_dms",
     {| model := flash; prompt := Prompt.cold_dms; tools := None;
        schema := Some strings |});
    (lit "email_campaign",
     {| model := flash; prompt := Prompt.email_campaign; tools := None;
        schema := Some (SchObject [("subject", SchString); ("body", SchString)]) |});
    (lit "email_subjects",
     {| model := flash; prompt := Prompt.email_subjects; tools := None;
        schema := Some strings |});
    (lit "objection_handler",
     {| model := flash; prompt := Prompt.objection_handler; tools := None;
        schema := Some strings |});
    (lit "content_score",
     {| model := flash; prompt := Prompt.content_score; tools := None;
        schema := Some (SchObject [("score", SchInteger); ("readability", SchString);
                                   ("keywordDensity", SchNumber); ("suggestions", strings);
                                   ("missingKeywords", strings)]) |}) ].

(** ** The collaborators of the route *)

(** A document of the [User] collection. *)
Record User : Type := {
  email : jsstring;
  password : jsstring;
  role : jsstring;
  subscription : option jsstring;     (* [None]: undefined or null *)
  tokensUsed : Z;                     (* usage.tokensUsed *)
  organizationId : option jsstring
}.

Abbreviation UserDb := (gmap (list N) User).

(** The argument of [genAI.models.generateContent]. *)
Record GenRequest : Type := {
  req_model : jsstring;
  req_contents : jsstring;
  req_responseMimeType : jsstring;
  req_responseSchema : option Schema;
  req_tools : option (list Tool);
  req_maxOutputTokens : N
}.

Record UsageMetadata : Type := { totalTokenCount : option Z }.
Record GroundingMetadata : Type := { groundingChunks : option (list jsval) }.
Record Candidate : Type := { groundingMetadata : option GroundingMetadata }.

(** What the route reads of the response of the backend; a field that is
    [None] is [undefined]. *)
Record GenResponse : Type := {
  text : option jsstring;
  usageMetadata : option UsageMetadata;
  candidates : option (list Candidate)
}.

(** The generative backend: for each call, a response or a rejection. *)
Definition Backend := GenRequest -> exn GenResponse.

Record Response : Type := {
  status : N;
  body : jsval
}.

(** The effects of a request that leave the process. *)
Inductive Event : Type :=
| FindById (id : jsstring)
| GenerateContent (rq : GenRequest)
| IncTokensUsed (id : jsstring) (amount : Z)
| LogError (e : JsError) (userId : jsstring).

(** ** The monad of a route handler *)

Record World : Type := {
  users : UserDb;
  events : list Event          (* oldest first *)
}.

Inductive outcome (A : Type) : Type :=
| Val (a : A)                  (* the computation goes on *)
| Sent (r : Response)          (* [return res.status(..).json(..)] *)
| Raised (e : JsError).        (* an exception on its way to the [catch] *)
Arguments Val {A} a.
Arguments Sent {A} r.
Arguments Raised {A} e.

Definition Handler (A : Type) : Type := World -> outcome A * World.

Definition ret {A} (a : A) : Handler A := fun w => (Val a, w).

Definition bind {A B} (c : Handler A) (k : A -> Handler B) : Handler B :=
  fun w =>
    match c w with
    | (Val a, w') => k a w'
    | (Sent r, w') => (Sent r, w')
    | (Raised e, w') => (Raised e, w')
    end.

Declare Scope handler_scope.
Delimit Scope handler_scope with handler.
Notation "'await' x ':=' c 'in' k" := (bind c (fun x => k))
  (at level 10, x name, c at level 100, k at level 200) : handler_scope.
Notation "'run' c 'in' k" := (bind c (fun _ => k))
  (at level 10, c at level 100, k at level 200) : handler_scope.

Definition send {A} (st : N) (b : jsval) : Handler A :=
  fun w => (Sent {| status := st; body := b |}, w).

Definition raise {A} (e : JsError) : Handler A := fun w => (Raised e, w).

Definition lift {A} (c : exn A) : Handler A :=
  match c with
  | Ok a => ret a
  | Throw e => raise e
  end.

Definition emit (ev : Event) : Handler unit :=
  fun w => (Val tt, {| users := users w; events := events w ++ [ev] |}).

(** [await User.findById(id)] *)
Definition findById (id : jsstring) : Handler (option User) :=
  fun w => (Val (users w !! id), {| users := users w; events := events w ++ [FindById id] |}).

Definition add_tokens (amount : Z) (u : User) : User :=
  {| email := email u; password := password u; role := role u;
     subscription := subscription u; tokensUsed := (tokensUsed u + amount)%Z;
     organizationId := organizationId u |}.

(** [await User.findByIdAndUpdate(id, { $inc: { "usage.tokensUsed": amount } })] *)
Definition incTokensUsed (id : jsstring) (amount : Z) : Handler unit :=
  fun w => (Val tt, {| users := alter (add_tokens amount) id (users w);
                       events := events w ++ [IncTokensUsed id amount] |}).

(** [await genAI.models.generateContent(rq)] *)
Definition generateContent (genAI : Backend) (rq : GenRequest) : Handler GenResponse :=
  fun w =>
    let w' := {| users := users w; events := events w ++ [GenerateContent rq] |} in
    match genAI rq with
    | Ok result => (Val result, w')
    | Throw e => (Raised e, w')
    end.

(** [try { body } catch (e) { handler }] around a body that ends by
    answering the request. *)
Definition try_catch (body : Handler Empty_set) (handler : JsError -> Handler Empty_set)
  : Handler Empty_set :=
  fun w =>
    match body w with
    | (Raised e, w') => handler e w'
    | other => other
    end.

(** ** The route [POST /api/ai/execute] *)

(** What the route reads of the request: [req.user.id], set by
    [authenticateToken], and the two fields of [req.body], each of them
    any value of the parsed body, or [undefined] when the body has no such
    field. *)
Record Request : Type := {
  user_id : jsstring;
  agent : jsval;
  payload : jsval
}.

(** [const limits = { hobby: 100000, pro: 1000000, agency: 5000000 }] *)
Definition limits : list (jsstring * Z) :=
  [(lit "hobby", 100000%Z); (lit "pro", 1000000%Z); (lit "agency", 5000000%Z)].

(** [user.subscription || 'hobby'] *)
Definition tier_key (user : User) : jsstring :=
  match subscription user with
  | Some s => str_or s (lit "hobby")
  | None => lit "hobby"
  end.

(** [n >= x] for a number [n] and the result [x] of a property read.
    [undefined] converts to NaN; an inherited member is an object whose
    primitive value is a string that is not numeric, NaN again; every
    comparison with NaN is false. *)
Definition number_ge (n : Z) (x : propval Z) : bool :=
  match x with
  | Own c => (c <=? n)%Z
  | Inherited _ => false
  | Absent => false
  end.

(** [user.usage.tokensUsed >= limits[user.subscription || 'hobby']] *)
Definition quota_exceeded (user : User) : bool :=
  number_ge (tokensUsed user) (obj_get limits (tier_key user)).

(** [result.usageMetadata?.totalTokenCount || 500]: zero is falsy. *)
Definition usage_of (result : GenResponse) : Z :=
  match usageMetadata result with
  | Some um =>
      match totalTokenCount um with
      | Some n => if (n =? 0)%Z then 500%Z else n
      | None => 500%Z
      end
  | None => 500%Z
  end.

(** [result.candidates?.[0]?.groundingMetadata] *)
Definition grounding_of (result : GenResponse) : option GroundingMetadata :=
  match candidates result with
  | Some (c :: _) => groundingMetadata c
  | _ => None
  end.

(** [grounding?.groundingChunks || []] *)
Definition chunks_of (grounding : option GroundingMetadata) : list jsval :=
  match grounding with
  | Some g => default [] (groundingChunks g)
  | None => []
  end.

(** [result.text] as a value. *)
Definition text_value (result : GenResponse) : jsval :=
  match text result with
  | Some s => JStr s
  | None => JUndefined
  end.

(** [agent === 'maps_scout' || agent === 'seo_audit'] *)
Definition is_grounding_agent (agent : jsval) : bool :=
  strict_eq_string agent "maps_scout" || strict_eq_string agent "seo_audit".

(** [try { output = JSON.parse(result.text); } catch (e) { output =
    JSON.parse(result.text.replace(/```json|```/g, '').trim()); }]
    An undefined text is parsed as the word [undefined], which fails, and
    has no [replace] method. *)
Definition parse_output (result : GenResponse) : exn jsval :=
  match JSON_parse (default (lit "undefined") (text result)) with
  | Some v => Ok v
  | None =>
      match text result with
      | None => Throw TypeError
      | Some s =>
          match JSON_parse (trim (replace_fences 0 s)) with
          | Some v => Ok v
          | None => Throw SyntaxError
          end
      end
  end.

(** Truthiness of an optional field of an agent ([agentConfig.schema]). *)
Definition defined {A} (o : option A) : bool :=
  match o with Some _ => true | None => false end.

Definition error_body (msg : string) : jsval := JObj [(lit "error", JStr (lit msg))].
Definition data_body (v : jsval) : jsval := JObj [(lit "data", v)].

(** [{ model: agentConfig.model, contents: prompt, config: {
      responseMimeType: agentConfig.schema ? "application/json" : "text/plain",
      responseSchema: agentConfig.schema, tools: agentConfig.tools,
      maxOutputTokens: 8192 } }] *)
Definition gen_request (cfg : AgentConfig) (prompt : jsstring) : GenRequest :=
  {| req_model := model cfg;
     req_contents := prompt;
     req_responseMimeType :=
       if defined (schema cfg) then lit "application/json" else lit "text/plain";
     req_responseSchema := schema cfg;
     req_tools := tools cfg;
     req_maxOutputTokens := 8192 |}.

(** [{ text: result.text, mapChunks: grounding?.groundingChunks || [] }]
    with [grounding = result.candidates?.[0]?.groundingMetadata]. *)
Definition grounded_data (result : GenResponse) : jsval :=
  let grounding := grounding_of result in
  JObj [(lit "text", text_value result); (lit "mapChunks", JArr (chunks_of grounding))].

Local Open Scope handler_scope.

(** The handler, for an agent table [AGENTS] and a backend [genAI]. *)
Definition execute (AGENTS : list (jsstring * AgentConfig)) (genAI : Backend)
    (req : Request) : Handler Empty_set :=
  try_catch
    (await agentConfig := lift (obj_at AGENTS (agent req)) in
     match agentConfig with
     | Absent => send 404 (error_body "Invalid agent")
     | _ =>
         await user := findById (user_id req) in
         await exceeded :=
           lift (match user with
                 | Some u => Ok (quota_exceeded u)
                 | None => Throw TypeError
                 end) in
         if exceeded : bool then send 402 (error_body "Quota exceeded. Upgrade required.")
         else
           match agentConfig with
           | Own cfg =>
               await prompt := lift (prompt cfg (payload req)) in
               await result := generateContent genAI (gen_request cfg prompt) in
               let usage := usage_of result in
               run incTokensUsed (user_id req) usage in
               if is_grounding_agent (agent req) then
                 send 200 (data_body (grounded_data result))
               else
                 await output :=
                   (if defined (schema cfg) then lift (parse_output result)
                    else ret (text_value result)) in
                 send 200 (data_body output)
           | _ =>
               (* [agentConfig.prompt] is undefined on an inherited member *)
               raise TypeError
           end
     end)
    (fun e =>
       run emit (LogError e (user_id req)) in
       send 500 (error_body "AI Processing Failed")).

(** One request against a user collection: the answer, the collection
    afterwards and the effects in order. *)
Definition serve (AGENTS : list (jsstring * AgentConfig)) (genAI : Backend)
    (db : UserDb) (req : Request) : option Response * UserDb * list Event :=
  match execute AGENTS genAI req {| users := db; events := [] |} with
  | (Sent r, w) => (Some r, users w, events w)
  | (_, w) => (None, users w, events w)
  end.

(** ** The vocabulary of the specification *)

(** The three shapes of a normalized result. *)
Inductive Shape : Type := Grounded | Structured | PlainText.

(** The shape a contract declares: grounding tools first, then an output
    schema, else text. *)
Definition has_grounding_tools (cfg : AgentConfig) : bool :=
  match tools cfg with
  | Some (_ :: _) => true
  | _ => false
  end.

Definition declared_shape (cfg : AgentConfig) : Shape :=
  if has_grounding_tools cfg then Grounded
  else if defined (schema cfg) then Structured
  else PlainText.

Definition ok (v : jsval) : Response := {| status := 200; body := data_body v |}.
Definition failed : Response :=
  {| status := 500; body := error_body "AI Processing Failed" |}.
Definition not_found : Response :=
  {| status := 404; body := error_body "Invalid agent" |}.
Definition quota_rejected : Response :=
  {| status := 402; body := error_body "Quota exceeded. Upgrade required." |}.

(** The answer the specification asks for once the backend has answered
    [result] for a contract [cfg]. *)
Definition normalized (cfg : AgentConfig) (result : GenResponse) : Response :=
  match declared_shape cfg with
  | Grounded => ok (grounded_data result)
  | Structured =>
      match parse_output result with
      | Ok v => ok v
      | Throw _ => failed
      end
  | PlainText => ok (text_value result)
  end.



(** The cost the backend reports, if it reports one. *)
Definition reported_cost (result : GenResponse) : option Z :=
  match usageMetadata result with
  | Some um => totalTokenCount um
  | None => None
  end.


(** The reads and writes of the quota ledger during a request. *)
Definition touches_ledger (ev : Event) : bool :=
  match ev with
  | FindById _ | IncTokensUsed _ _ => true
  | _ => false
  end.

Definition calls_backend (ev : Event) : bool :=
  match ev with
  | GenerateContent _ => true
  | _ => false
  end.

Definition reply (out : option Response * UserDb * list Event) : option Response :=
  fst (fst out).
Definition db_after (out : option Response * UserDb * list Event) : UserDb :=
  snd (fst out).
Definition effects (out : option Response * UserDb * list Event) : list Event :=
  snd out.

(** ** The route in direct style *)

(** What happens once the quota check has let the request through. *)
Definition after_quota (genAI : Backend) (db : UserDb) (req : Request)
    (found : propval AgentConfig)
  : option Response * UserDb * list Event :=
  let id := user_id req in
  match found with
  | Own cfg =>
      match prompt cfg (payload req) with
      | Throw e => (Some failed, db, [FindById id; LogError e id])
      | Ok p =>
          let rq := gen_request cfg p in
          match genAI rq with
          | Throw e => (Some failed, db, [FindById id; GenerateContent rq; LogError e id])
          | Ok result =>
              let usage := usage_of result in
              let db' := alter (add_tokens usage) id db in
              let evs := [FindById id; GenerateContent rq; IncTokensUsed id usage] in
              if is_grounding_agent (agent req) then
                (Some (ok (grounded_data result)), db', evs)
              else if defined (schema cfg) then
                match parse_output result with
                | Ok v => (Some (ok v), db', evs)
                | Throw e => (Some failed, db', evs ++ [LogError e id])
                end
              else (Some (ok (text_value result)), db', evs)
          end
      end
  | _ => (Some failed, db, [FindById id; LogError TypeError id])
  end.

(** ** Sample requests *)

Module Sample.

(** A user of the lowest tier, far from the ceiling, and one at it. *)
Definition alice : User :=
  {| email := lit "alice@example.com"; password := lit "$2a$10$hash";
     role := lit "user"; subscription := Some (lit "hobby");
     tokensUsed := 10; organizationId := None |}.

Definition maxed : User :=
  {| email := lit "max@example.com"; password := lit "$2a$10$hash";
     role := lit "user"; subscription := Some (lit "hobby");
     tokensUsed := 100000; organizationId := None |}.

(** A user whose subscription is no tier of the table. *)
Definition trial : User :=
  {| email := lit "trial@example.com"; password := lit "$2a$10$hash";
     role := lit "user"; subscription := Some (lit "enterprise");
     tokensUsed := 999999999; organizationId := None |}.

Definition db : UserDb :=
  <[lit "u1" := alice]> (<[lit "u2" := maxed]> (<[lit "u3" := trial]> ∅)).

Definition request (id a : string) (p : jsval) : Request :=
  {| user_id := lit id; agent := JStr (lit a); payload := p |}.

(** A backend that answers every call with the text [t] and reports 42
    tokens. *)
Definition answer (t : jsstring) : GenResponse :=
  {| text := Some t;
     usageMetadata := Some {| totalTokenCount := Some 42%Z |};
     candidates := None |}.

Definition answering (t : jsstring) : Backend := fun _ => Ok (answer t).

(** The model output of the fallback scenario: a fenced block around
    the object with the one member score, 72. *)
Definition fenced_score : jsstring :=
  lit "```json" ++ [10] ++ lit "{" ++ dq ++ lit "score" ++ dq ++ lit ": 72}" ++
  [10] ++ lit "```".

Definition score_72 : jsval := JObj [(lit "score", JNum 72 0)].

(** The agent table after a data-table edit that registers two more names
    for the contract of [maps_scout]. *)
Definition scout : AgentConfig :=
  {| model := flash; prompt := Prompt.maps_scout; tools := Some [googleMaps];
     schema := None |}.


(** Chat payloads whose history carries a DEL character, or a message of
    6000 letters. *)
Definition chat (message : jsstring) : jsval :=
  JObj [(lit "persona", JObj [(lit "jobTitle", JStr (lit "CTO"))]);
        (lit "productName", JStr (lit "Meti"));
        (lit "history", JArr [JObj [(lit "role", JStr (lit "user"));
                                    (lit "text", JStr message)]])].

Definition long_message : jsstring := List.repeat 97 6000.

(** Three requests of alice: a scoring whose answer is the fenced block, a
    niche analysis whose answer is not JSON, an audit whose answer is an
    empty JSON array. *)
Definition fenced_run : option Response * UserDb * list Event :=
  serve AI_AGENTS (answering fenced_score) db
        (request "u1" "content_score" (JObj [(lit "keyword", JStr (lit "crm"))])).

Definition oops_run : option Response * UserDb * list Event :=
  serve AI_AGENTS (answering (lit "oops")) db (request "u1" "niche" (JObj [])).

Definition audit_run : option Response * UserDb * list Event :=
  serve AI_AGENTS (answering (lit "[]")) db (request "u1" "seo_audit" (JObj [])).

End Sample.

(** ** Further vocabulary *)

(** What a user document holds beside the counter. *)
Definition profile (u : User)
  : jsstring * jsstring * jsstring * option jsstring * option jsstring :=
  (email u, password u, role u, subscription u, organizationId u).

(** The agents whose prompt reads [d.persona.jobTitle]. *)
Definition reads_job_title (name : jsstring) : bool :=
  existsb (str_eqb name)
    (List.map lit ["social_search"; "landing_page"; "chat_reply"; "cold_dms"]%string).

(** ** Authentication *)

(** [str.split(sep)] for a separator of one code unit: the first field and
    the fields after it. *)
Fixpoint split_fields (sep : N) (s : jsstring) : jsstring * list jsstring :=
  match s with
  | [] => ([], [])
  | c :: s' =>
      let '(field, rest) := split_fields sep s' in
      if (c =? sep)%N then ([], field :: rest) else (c :: field, rest)
  end.

Definition split (sep : N) (s : jsstring) : list jsstring :=
  let '(field, rest) := split_fields sep s in field :: rest.

(** The payload of a token, as [jwt.sign] is given it at registration and
    login: [{ id: user._id, role }]. *)
Record Claims : Type := {
  claims_id : jsstring;
  claims_role : jsstring
}.

Definition unauthorized : Response :=
  {| status := 401; body := error_body "Unauthorized" |}.
Definition forbidden : Response :=
  {| status := 403; body := error_body "Forbidden" |}.

(** [const token = req.headers['authorization']?.split(' ')[1]] *)
Definition token_of (authorization : option jsstring) : option jsstring :=
  match authorization with
  | Some h => nth_error (split 32 h) 1
  | None => None
  end.

(** The middleware [authenticateToken], for a verification [verify] of
    tokens under the secret of the server ([None]: [jwt.verify] reports an
    error).  [inl r]: the request is answered [r]; [inr user]: [req.user]
    is set and [next()] runs. *)
Definition authenticateToken (verify : jsstring -> option Claims)
    (authorization : option jsstring) : Response + Claims :=
  match token_of authorization with
  | None | Some [] => inl unauthorized          (* [if (!token)] *)
  | Some token =>
      match verify token with
      | None => inl forbidden
      | Some user => inr user
      end
  end.

(** An HTTP request to the route, after the body is parsed. *)
Record HttpRequest : Type := {
  authorization : option jsstring;
  body_agent : jsval;
  body_payload : jsval
}.

(** [app.post('/api/ai/execute', authenticateToken, async (req, res) => ...)] *)
Definition post_ai_execute (verify : jsstring -> option Claims)
    (AGENTS : list (jsstring * AgentConfig)) (genAI : Backend) (db : UserDb)
    (http : HttpRequest) : option Response * UserDb * list Event :=
  match authenticateToken verify (authorization http) with
  | inl r => (Some r, db, [])
  | inr user =>
      serve AGENTS genAI db
        {| user_id := claims_id user; agent := body_agent http;
           payload := body_payload http |}
  end.

(** ** Projects and clients *)

(** An [ObjectId]. *)
Definition ObjectId := N.

(** What the routes use of a model whose documents have an owner. *)
Class Owned (D : Type) : Type := {
  _id : D -> ObjectId;
  userId : D -> option jsstring
}.

(** The filter [{ _id: id, userId: user }]. *)
Definition owned_by {D} `{Owned D} (id : ObjectId) (user : jsstring) (d : D) : bool :=
  (_id d =? id)%N &&
  match userId d with
  | Some owner => str_eqb owner user
  | None => false
  end.

(** The filter [{ userId: user }]. *)
Definition of_user {D} `{Owned D} (user : jsstring) (d : D) : bool :=
  match userId d with
  | Some owner => str_eqb owner user
  | None => false
  end.

(** [Model.findOneAndUpdate(filter, update, { new: true })]: the first
    document that matches is updated and returned. *)
Fixpoint findOneAndUpdate {D} (filter : D -> bool) (update : D -> D) (coll : list D)
  : option D * list D :=
  match coll with
  | [] => (None, [])
  | d :: coll' =>
      if filter d then (Some (update d), update d :: coll')
      else let '(found, coll'') := findOneAndUpdate filter update coll' in
           (found, d :: coll'')
  end.

(** [Model.deleteOne(filter)]: the first document that matches is removed. *)
Fixpoint deleteOne {D} (filter : D -> bool) (coll : list D) : list D :=
  match coll with
  | [] => []
  | d :: coll' => if filter d then coll' else d :: deleteOne filter coll'
  end.

Record Project : Type := {
  project_id : ObjectId;
  project_userId : option jsstring;
  name : jsval;
  clientName : jsval;
  clientId : jsval;
  data : jsval;
  updatedAt : Z                      (* milliseconds since the epoch *)
}.

#[export] Instance Project_owned : Owned Project :=
  {| _id := project_id; userId := project_userId |}.

(** [.sort({ updatedAt: -1 })]: newest first. *)
Fixpoint insert_newest (p : Project) (sorted : list Project) : list Project :=
  match sorted with
  | [] => [p]
  | q :: sorted' =>
      if (updatedAt q <? updatedAt p)%Z then p :: sorted
      else q :: insert_newest p sorted'
  end.

Definition sort_newest (ps : list Project) : list Project :=
  fold_right insert_newest [] ps.

(** [Project.find({ userId: req.user.id }).sort({ updatedAt: -1 }).limit(50)] *)
Definition list_projects (user : jsstring) (coll : list Project) : list Project :=
  take 50 (sort_newest (List.filter (of_user user) coll)).

Definition json_not_found : Response :=
  {| status := 404; body := error_body "Not found" |}.
Definition json_success : Response :=
  {| status := 200; body := JObj [(lit "success", JBool true)] |}.

Section ProjectRoutes.

(** What Mongoose decides: the cast of a path parameter to an [ObjectId];
    what [$set] does to a field of the document for a value of the body,
    by the type of the schema ([String] for the client fields, [Object]
    for the data): it stores the value as cast, or fails with a
    [CastError] ([None]), and for a value that is [undefined] it keeps
    the field or empties it, by the version of Mongoose; and the
    serialization of a document. *)
Variable cast_id : jsstring -> option ObjectId.
Variable cast_string : jsval -> option (jsval -> jsval).
Variable cast_object : jsval -> option (jsval -> jsval).
Variable to_json : Project -> jsval.

(** [{ $set: { data, clientName, clientId, updatedAt: Date.now() } }] *)
Definition set_project (set_data set_clientName set_clientId : jsval -> jsval) (now : Z)
    (p : Project) : Project :=
  {| project_id := project_id p; project_userId := project_userId p; name := name p;
     clientName := set_clientName (clientName p); clientId := set_clientId (clientId p);
     data := set_data (data p); updatedAt := now |}.

(** [app.put('/api/projects/:id', ...)].  The handler has no [catch]: when
    a cast fails the promise is rejected and nothing is answered
    ([None]). *)
Definition put_project (now : Z) (user : jsstring) (id : jsstring) (body : jsval)
    (coll : list Project) : option Response * list Project :=
  match get body "data", get body "clientName", get body "clientId" with
  | Ok d, Ok cn, Ok ci =>
      match cast_id id, cast_object d, cast_string cn, cast_string ci with
      | Some oid, Some d', Some cn', Some ci' =>
          match findOneAndUpdate (owned_by oid user) (set_project d' cn' ci' now) coll with
          | (None, coll') => (Some json_not_found, coll')
          | (Some p, coll') => (Some {| status := 200; body := to_json p |}, coll')
          end
      | _, _, _, _ => (None, coll)
      end
  | _, _, _ => (None, coll)
  end.

(** [app.delete('/api/projects/:id', ...)] *)
Definition delete_project (user : jsstring) (id : jsstring) (coll : list Project)
  : option Response * list Project :=
  match cast_id id with
  | Some oid => (Some json_success, deleteOne (owned_by oid user) coll)
  | None => (None, coll)
  end.

End ProjectRoutes.

Record Client : Type := {
  client_id : ObjectId;
  client_userId : option jsstring;
  client_fields : jsval              (* name, industry, contactPerson, ... *)
}.

#[export] Instance Client_owned : Owned Client :=
  {| _id := client_id; userId := client_userId |}.

Section ClientRoutes.

(** The cast of a path parameter, the update that Mongoose makes of a
    request body ([None]: the body is refused), the serialization of a
    document. *)
Variable cast_id : jsstring -> option ObjectId.
Variable cast_update : jsval -> option (Client -> Client).
Variable to_json : Client -> jsval.

(** [app.put('/api/clients/:id', ...)]: the body is the update, and a
    client that is not found is answered as [null]. *)
Definition put_client (user : jsstring) (id : jsstring) (body : jsval)
    (coll : list Client) : option Response * list Client :=
  match cast_id id, cast_update body with
  | Some oid, Some update =>
      match findOneAndUpdate (owned_by oid user) update coll with
      | (None, coll') => (Some {| status := 200; body := JNull |}, coll')
      | (Some c, coll') => (Some {| status := 200; body := to_json c |}, coll')
      end
  | _, _ => (None, coll)
  end.

(** [app.delete('/api/clients/:id', ...)] *)
Definition delete_client (user : jsstring) (id : jsstring) (coll : list Client)
  : option Response * list Client :=
  match cast_id id with
  | Some oid => (Some json_success, deleteOne (owned_by oid user) coll)
  | None => (None, coll)
  end.

(** [app.get('/api/clients', ...)] *)
Definition get_clients (user : jsstring) (coll : list Client) : Response :=
  {| status := 200; body := JArr (List.map to_json (List.filter (of_user user) coll)) |}.

End ClientRoutes.

(** [{ userId: req.user.id, ...req.body }]: the properties of the body are
    copied, in their order, over the one property of the literal. *)
Definition spread (props : list (jsstring * jsval)) (base : list (jsstring * jsval))
  : list (jsstring * jsval) :=
  fold_left (fun o kv => obj_set (fst kv) (snd kv) o) props base.

Definition new_client (user : jsstring) (body : list (jsstring * jsval))
  : list (jsstring * jsval) :=
  spread body [(lit "userId", JStr user)].

(** The user an effect concerns, if it names one. *)
Definition event_user (ev : Event) : option jsstring :=
  match ev with
  | FindById id | IncTokensUsed id _ | LogError _ id => Some id
  | GenerateContent _ => None
  end.

(** ** The chat client *)

(** A message of a conversation, [{ role, text }].  The text of a reply
    is whatever the route has sent. *)
Record ChatMessage : Type := {
  chat_role : jsstring;
  chat_text : jsval
}.

Definition user_message (t : jsstring) : ChatMessage :=
  {| chat_role := lit "user"; chat_text := JStr t |}.
Definition model_message (t : jsval) : ChatMessage :=
  {| chat_role := lit "model"; chat_text := t |}.

Definition message_json (m : ChatMessage) : jsval :=
  JObj [(lit "role", JStr (chat_role m)); (lit "text", chat_text m)].

(** Truthiness of a value. *)
Definition truthy (v : jsval) : bool :=
  match v with
  | JUndefined | JNull => false
  | JBool b => b
  | JNum m _ => negb (m =? 0)%Z
  | JStr s => negb (str_eqb s [])
  | JArr _ | JObj _ => true
  end.

(** [typeof result === 'string' ? result : (result.text || "...")] *)
Definition chat_result (result : jsval) : exn jsval :=
  match result with
  | JStr s => Ok (JStr s)
  | _ =>
      let! t := get result "text" in
      Ok (if truthy t then t else JStr (lit "..."))
  end.

(** [{ history, productName, persona }], the payload of a chat call. *)
Definition chat_payload (productName persona : jsval) (history : list ChatMessage)
  : jsval :=
  JObj [(lit "history", JArr (List.map message_json history));
        (lit "productName", productName); (lit "persona", persona)].

Section ChatClient.

(** The bridge [executeAI] to the route: the [data] of its answer, or the
    error it throws. *)
Variable executeAI : jsstring -> jsval -> exn jsval.
Variable productName persona : jsval.

(** [sendChatMessage(history, productName, persona)] *)
Definition sendChatMessage (history : list ChatMessage) : exn jsval :=
  let! result :=
    executeAI (lit "chat_reply") (chat_payload productName persona history) in
  chat_result result.

(** The state of the sales simulator of [StepSales]. *)
Record SalesState : Type := {
  messages : list ChatMessage;
  inputMessage : jsstring;
  chatLoading : bool
}.

(** [handleSendMessage], from the click to the end of the [finally], when
    no other update of [messages] falls between the send and its answer
    (the input and the button are disabled while [chatLoading]), so that
    [prev] is [newHistory]. *)
Definition handleSendMessage (st : SalesState) : SalesState :=
  match trim (inputMessage st) with
  | [] => st                                   (* [if (!inputMessage.trim()) return] *)
  | _ =>
      let newHistory := messages st ++ [user_message (inputMessage st)] in
      let reply :=
        match sendChatMessage newHistory with
        | Ok responseText => model_message responseText
        | Throw _ => model_message (JStr (lit "Connection error. Please try again."))
        end in
      {| messages := newHistory ++ [reply]; inputMessage := []; chatLoading := false |}
  end.

End ChatClient.

(** ** The conversation of [createSalesChat] *)

(** The closure of [createSalesChat] keeps one array [history].  A call
    of [sendMessage] pushes the message of the user, sends the history as
    it then is (the body of the request is serialized before the first
    [await]) and is suspended; when the send is answered it pushes the
    reply, and when the send fails it pushes nothing.  Nothing keeps a
    second call from starting while the first is suspended, so a
    conversation is a schedule of two kinds of events. *)
Inductive ChatEvent : Type :=
| Call (message : jsstring)
    (* [sendMessage({ message })], up to its [await] *)
| Settle (i : nat) (result : exn jsval).
    (* the [i]-th suspended call resumes: [executeAI] has given the data of
       an answer, or has thrown *)

(** The array of the closure, and the payloads of the calls that are
    suspended, oldest first. *)
Record Chat : Type := {
  chat_history : list ChatMessage;
  chat_in_flight : list jsval
}.

Definition chat_step (productName persona : jsval) (st : Chat) (ev : ChatEvent) : Chat :=
  match ev with
  | Call message =>
      let history := chat_history st ++ [user_message message] in
      {| chat_history := history;
         chat_in_flight := chat_in_flight st ++ [chat_payload productName persona history] |}
  | Settle i result =>
      match chat_in_flight st !! i with
      | None => st                              (* no such call *)
      | Some _ =>
          {| chat_history :=
               match exn_bind result chat_result with
               | Ok responseText => chat_history st ++ [model_message responseText]
               | Throw _ => chat_history st
               end;
             chat_in_flight := delete i (chat_in_flight st) |}
      end
  end.

(** A conversation from the creation of the chat. *)
Definition chat_run (productName persona : jsval) (evs : list ChatEvent) : Chat :=
  fold_left (chat_step productName persona) evs
            {| chat_history := []; chat_in_flight := [] |}.

(** The messages of the calls of a schedule, in order. *)
Definition calls (evs : list ChatEvent) : list jsstring :=
  List.concat (List.map (fun ev => match ev with
                                   | Call message => [message]
                                   | Settle _ _ => []
                                   end) evs).

(** A schedule without overlap: every call is resumed before the next
    call starts.  [waiting] tells that a call is suspended. *)
Fixpoint sequential (waiting : bool) (evs : list ChatEvent) : bool :=
  match evs with
  | [] => true
  | Call _ :: evs' => negb waiting && sequential true evs'
  | Settle i _ :: evs' => waiting && (i =? 0)%nat && sequential false evs'
  end.

(** What a schedule says in its own order: each message of the user, and
    for each answer the reply it carries, nothing where the send fails. *)
Definition transcript (evs : list ChatEvent) : list ChatMessage :=
  List.concat
    (List.map (fun ev => match ev with
                         | Call message => [user_message message]
                         | Settle _ result =>
                             match exn_bind result chat_result with
                             | Ok responseText => [model_message responseText]
                             | Throw _ => []
                             end
                         end) evs).

Definition is_user (m : ChatMessage) : bool := str_eqb (chat_role m) (lit "user").

(** A history in which every reply of the model answers a message of the
    user: no reply comes first, and none follows another. *)
Fixpoint replies_answer (after_user : bool) (history : list ChatMessage) : bool :=
  match history with
  | [] => true
  | m :: history' =>
      if str_eqb (chat_role m) (lit "user") then replies_answer true history'
      else after_user && replies_answer false history'
  end.

(** * Properties *)

(** ** Strings *)

Lemma str_eqb_eq (a b : jsstring) : str_eqb a b = true <-> a = b.
Proof.
  revert b; induction a as [|x a IH]; intros [|y b]; simpl; split;
    try congruence; try reflexivity.
  - intros [Hxy Hab]%andb_true_iff. apply N.eqb_eq in Hxy. apply IH in Hab.
    now subst.
  - intros [= -> ->]. rewrite N.eqb_refl. now apply IH.
Qed.

Lemma str_eqb_refl (a : jsstring) : str_eqb a a = true.
Proof. now apply str_eqb_eq. Qed.

Lemma str_eqb_neq (a b : jsstring) : a <> b -> str_eqb a b = false.
Proof.
  intros Hne. destruct (str_eqb a b) eqn:E; [|reflexivity].
  now apply str_eqb_eq in E.
Qed.

(** ** JSON *)

(** [JSON.parse] on a few texts: scalars and nesting, white space around
    a value, and the texts the grammar refuses. *)
Example parse_nested :
  JSON_parse (lit "{" ++ dq ++ lit "a" ++ dq ++ lit ": [1, 2.50, -3e2, true, null]}")
  = Some (JObj [(lit "a", JArr [JNum 1 0; JNum 25 (-1); JNum (-3) 2; JBool true; JNull])]).
Proof. vm_compute; reflexivity. Qed.

Example parse_padded : JSON_parse (lit " 12 ") = Some (JNum 12 0).
Proof. vm_compute; reflexivity. Qed.

Example parse_refused :
  Forall (fun t => JSON_parse (lit t) = None)
    [""; "undefined"; "01"; "1."; "-"; "[1,]"; "[1 2]"; "{}{}"; "{a: 1}"; "tru";
     "Here is the JSON: []"]%string.
Proof. repeat constructor. Qed.

(** [JSON.stringify] escapes the units below U+0020, not those from U+007F
    to U+009F, and leaves a property that is [undefined] out. *)
Example stringify_escapes :
  stringify (JObj [(lit "t", JStr [10; 127; 159]); (lit "u", JUndefined)])
  = Some (lit "{" ++ dq ++ lit "t" ++ dq ++ lit ":" ++ dq ++ [92; 110; 127; 159] ++ dq
          ++ lit "}").
Proof. vm_compute; reflexivity. Qed.

(** ** The sanitizer *)

Section Sanitizer.

Let printable (c : N) : bool := negb (is_control c).



Lemma replace_control_clean (s : jsstring) :
  Forall (fun c => is_control c = false) (replace_control s).
Proof.
  induction s as [|c s IH]; simpl; [constructor|].
  destruct (is_control c) eqn:E; [assumption|now constructor].
Qed.

Lemma replace_control_fixed (s : jsstring) :
  Forall (fun c => is_control c = false) s -> replace_control s = s.
Proof.
  induction 1 as [|c s Hc _ IH]; simpl; [reflexivity|].
  now rewrite Hc, IH.
Qed.

Lemma slice_from_start (n : nat) (s : jsstring) : slice 0 n s = take n s.
Proof. unfold slice. now rewrite Nat.sub_0_r. Qed.

Lemma cleanInput_string (s : jsstring) :
  cleanInput (JStr s) = take 5000 (replace_control s).
Proof. apply slice_from_start. Qed.

Lemma cleanInput_clean (v : jsval) :
  Forall (fun c => is_control c = false) (cleanInput v).
Proof.
  destruct v; try constructor.
  rewrite cleanInput_string. apply Forall_take, replace_control_clean.
Qed.

Lemma cleanInput_length (v : jsval) : (length (cleanInput v) <= 5000)%nat.
Proof.
  destruct v; simpl; try lia.
  rewrite slice_from_start, length_take. lia.
Qed.


(** C9. Sanitizing a sanitized string changes nothing. *)
Theorem cleanInput_idempotent (s : jsstring) :
  cleanInput (JStr (cleanInput (JStr s))) = cleanInput (JStr s).
Proof.
  rewrite (cleanInput_string (cleanInput _)).
  rewrite replace_control_fixed by apply cleanInput_clean.
  apply firstn_all2, cleanInput_length.
Qed.

End Sanitizer.

(** ** The route unfolded *)

Section Route.

Variable AGENTS : list (jsstring * AgentConfig).
Variable genAI : Backend.
Variable db : UserDb.
Variable req : Request.

Let id := user_id req.

Lemma serve_unfold :
  serve AGENTS genAI db req =
    match obj_at AGENTS (agent req) with
    | Throw e => (Some failed, db, [LogError e id])
    | Ok Absent => (Some not_found, db, [])
    | Ok found =>
        match db !! id with
        | None => (Some failed, db, [FindById id; LogError TypeError id])
        | Some u =>
            if quota_exceeded u then (Some quota_rejected, db, [FindById id])
            else after_quota genAI db req found
        end
    end.
Proof.
  unfold serve, execute, try_catch, after_quota, id.
  destruct (obj_at AGENTS (agent req)) as [[cfg|k|]|e]; simpl;
    try reflexivity;
    unfold bind, findById, lift, send, raise, ret, emit; simpl;
    destruct (db !! user_id req) as [u|]; simpl; try reflexivity;
    destruct (quota_exceeded u); simpl; try reflexivity.
  destruct (prompt cfg (payload req)) as [p|e]; simpl; [|reflexivity].
  unfold generateContent; simpl.
  destruct (genAI (gen_request cfg p)) as [result|e]; simpl; [|reflexivity].
  destruct (is_grounding_agent (agent req)); simpl; [reflexivity|].
  destruct (defined (schema cfg)); simpl; [|reflexivity].
  destruct (parse_output result); reflexivity.
Qed.

(** The route always answers. *)
Lemma serve_answers : exists r, reply (serve AGENTS genAI db req) = Some r.
Proof.
  rewrite serve_unfold. unfold after_quota.
  repeat match goal with
         | |- context [match ?x with _ => _ end] => destruct x; simpl
         end; eauto.
Qed.

End Route.

(** ** The agent table *)

Lemma get_own_In {A} (o : list (jsstring * A)) (k : jsstring) (a : A) :
  get_own o k = Some a -> In (k, a) o.
Proof.
  induction o as [|[k' a'] o IH]; simpl; [discriminate|].
  destruct (str_eqb k k') eqn:E.
  - intros [= ->]. apply str_eqb_eq in E. subst. now left.
  - intros H. right. now apply IH.
Qed.

Lemma obj_get_Own {A} (o : list (jsstring * A)) (k : jsstring) (a : A) :
  obj_get o k = Own a <-> get_own o k = Some a.
Proof.
  unfold obj_get. destruct (get_own o k).
  - split; congruence.
  - destruct (existsb _ _); split; discriminate.
Qed.

Lemma obj_at_string {A} (o : list (jsstring * A)) (k : jsstring) :
  obj_at o (JStr k) = Ok (obj_get o k).
Proof. reflexivity. Qed.

Lemma obj_at_Own {A} (o : list (jsstring * A)) (v : jsval) (a : A) :
  obj_at o v = Ok (Own a) <->
  exists k, to_property_key v = Ok k /\ obj_get o k = Own a.
Proof.
  unfold obj_at. destruct (to_property_key v) as [k|e]; split.
  - intros [= H]. eauto.
  - intros (k' & [= <-] & H). now rewrite H.
  - discriminate.
  - intros (k' & [=] & _).
Qed.



(** In the table of the source, the two names the route compares the agent
    with are the keys of the two contracts that declare tools. *)
Lemma AI_AGENTS_grounding (k : jsstring) (cfg : AgentConfig) :
  obj_get AI_AGENTS k = Own cfg ->
  is_grounding_agent (JStr k) = has_grounding_tools cfg.
Proof.
  intros H%obj_get_Own%get_own_In.
  assert (Hall : forallb (fun e => Bool.eqb (is_grounding_agent (JStr (fst e)))
                                     (has_grounding_tools (snd e))) AI_AGENTS = true)
    by (vm_compute; reflexivity).
  rewrite forallb_forall in Hall. specialize (Hall _ H). simpl in Hall.
  now apply Bool.eqb_prop.
Qed.

Lemma obj_at_In {A} (o : list (jsstring * A)) (v : jsval) (a : A) :
  obj_at o v = Ok (Own a) -> exists k, to_property_key v = Ok k /\ In (k, a) o.
Proof.
  intros (k & Hk & H%obj_get_Own%get_own_In)%obj_at_Own. eauto.
Qed.


(** ** Quota *)

Lemma limits_own (s : jsstring) (c : Z) :
  In (s, c) limits -> s <> [] /\ obj_get limits s = Own c.
Proof.
  unfold limits. simpl.
  intros [[= <- <-]|[[= <- <-]|[[= <- <-]|[]]]];
    (split; [discriminate|vm_compute; reflexivity]).
Qed.

(** C3. A user of one of the three tiers whose counter has reached the
    ceiling of the tier is answered 402 whatever registered agent is
    asked for; the only effect of the request is the read of the user: the
    backend is not called and the collection is unchanged. *)
Theorem quota_exceeded_rejected (AGENTS : list (jsstring * AgentConfig))
    (genAI : Backend) (db : UserDb) (req : Request)
    (cfg : AgentConfig) (u : User) (s : jsstring) (c : Z) :
  obj_at AGENTS (agent req) = Ok (Own cfg) ->
  db !! user_id req = Some u ->
  subscription u = Some s ->
  In (s, c) limits ->
  (tokensUsed u >= c)%Z ->
  serve AGENTS genAI db req = (Some quota_rejected, db, [FindById (user_id req)])
  /\ status quota_rejected = 402
  /\ existsb calls_backend (effects (serve AGENTS genAI db req)) = false
  /\ db_after (serve AGENTS genAI db req) !! user_id req = Some u.
Proof.
  intros Hcfg Hu Hs [Hne Hc]%limits_own Hge.
  assert (Hq : quota_exceeded u = true).
  { unfold quota_exceeded, tier_key. rewrite Hs.
    destruct s; [congruence|]. simpl str_or. rewrite Hc. simpl.
    apply Z.leb_le. lia. }
  rewrite serve_unfold, Hcfg, Hu, Hq. simpl. auto.
Qed.

Lemma quota_exceeded_rejected_witness :
  serve AI_AGENTS (Sample.answering (lit "[]")) Sample.db
        (Sample.request "u2" "niche" JNull)
    = (Some quota_rejected, Sample.db, [FindById (lit "u2")])
  /\ status quota_rejected = 402
  /\ existsb calls_backend
       (effects (serve AI_AGENTS (Sample.answering (lit "[]")) Sample.db
                       (Sample.request "u2" "niche" JNull))) = false
  /\ db_after (serve AI_AGENTS (Sample.answering (lit "[]")) Sample.db
                     (Sample.request "u2" "niche" JNull)) !! lit "u2"
     = Some Sample.maxed.
Proof.
  eapply (quota_exceeded_rejected AI_AGENTS _ Sample.db
            (Sample.request "u2" "niche" JNull) _ Sample.maxed (lit "hobby") 100000).
  - reflexivity.
  - vm_compute; reflexivity.
  - reflexivity.
  - simpl; auto.
  - simpl; lia.
Defined.

(** C10. For a user whose subscription is a non-empty string other than
    hobby, pro and agency, the table of ceilings has no entry, the
    comparison of the quota check is false however large the counter, and
    the route never answers 402. *)
Theorem unknown_tier_unlimited (AGENTS : list (jsstring * AgentConfig))
    (genAI : Backend) (db : UserDb) (req : Request) (u : User) (s : jsstring) :
  db !! user_id req = Some u ->
  subscription u = Some s ->
  s <> [] -> s <> lit "hobby" -> s <> lit "pro" -> s <> lit "agency" ->
  get_own limits s = None
  /\ quota_exceeded u = false
  /\ forall r, reply (serve AGENTS genAI db req) = Some r -> status r <> 402.
Proof.
  intros Hu Hs Hne Hh Hp Ha.
  assert (Hown : get_own limits s = None).
  { unfold limits. simpl.
    rewrite !str_eqb_neq by assumption. reflexivity. }
  assert (Hq : quota_exceeded u = false).
  { unfold quota_exceeded, tier_key. rewrite Hs.
    destruct s; [congruence|]. simpl str_or.
    unfold obj_get. rewrite Hown. now destruct (existsb _ _). }
  split; [assumption|split; [assumption|]].
  intros r. rewrite serve_unfold, Hu, Hq. unfold after_quota.
  destruct (obj_at AGENTS (agent req)) as [[cfg|k|]|e]; simpl.
  - repeat match goal with
           | |- context [match ?x with _ => _ end] => destruct x; simpl
           end; intros [= <-]; discriminate.
  - intros [= <-]; discriminate.
  - intros [= <-]; discriminate.
  - intros [= <-]; discriminate.
Qed.

Lemma unknown_tier_unlimited_witness :
  get_own limits (lit "enterprise") = None
  /\ quota_exceeded Sample.trial = false
  /\ forall r,
       reply (serve AI_AGENTS (Sample.answering (lit "[]")) Sample.db
                    (Sample.request "u3" "niche" JNull)) = Some r ->
       status r <> 402.
Proof.
  apply (unknown_tier_unlimited AI_AGENTS (Sample.answering (lit "[]")) Sample.db
           (Sample.request "u3" "niche" JNull) Sample.trial (lit "enterprise"));
    solve [vm_compute; reflexivity | discriminate].
Defined.

(** ** Unknown agents *)

(** An agent whose key is neither a key of the table nor a member of
    [Object.prototype] is answered 404, with no effect at all. *)
Lemma unknown_agent_not_found (AGENTS : list (jsstring * AgentConfig))
    (genAI : Backend) (db : UserDb) (req : Request) (k : jsstring) :
  to_property_key (agent req) = Ok k ->
  get_own AGENTS k = None ->
  existsb (str_eqb k) object_prototype_keys = false ->
  serve AGENTS genAI db req = (Some not_found, db, []).
Proof.
  intros Hk Hown Hproto. rewrite serve_unfold. unfold obj_at, obj_get.
  now rewrite Hk, Hown, Hproto.
Qed.

(** The scenario of the specification. *)
Lemma does_not_exist_not_found (genAI : Backend) (db : UserDb) (id : jsstring) (p : jsval) :
  serve AI_AGENTS genAI db
        {| user_id := id; agent := JStr (lit "does_not_exist"); payload := p |}
    = (Some not_found, db, []).
Proof. now apply (unknown_agent_not_found _ _ _ _ (lit "does_not_exist")). Qed.

(** C4, at the agent name [constructor].  The name is not a key of the
    table, yet [AI_AGENTS[agent]] finds the member inherited from
    [Object.prototype], which is truthy: the route does not answer 404.
    It reads the user, and answers 402 when the quota is exhausted and
    500 otherwise (the inherited member has no [prompt] to call). *)
Theorem inherited_name_not_rejected (genAI : Backend) (db : UserDb)
    (id : jsstring) (p : jsval) :
  get_own AI_AGENTS (lit "constructor") = None
  /\ serve AI_AGENTS genAI db
           {| user_id := id; agent := JStr (lit "constructor"); payload := p |}
     = match db !! id with
       | Some u =>
           if quota_exceeded u then (Some quota_rejected, db, [FindById id])
           else (Some failed, db, [FindById id; LogError TypeError id])
       | None => (Some failed, db, [FindById id; LogError TypeError id])
       end.
Proof.
  split; [reflexivity|].
  rewrite serve_unfold.
  change (obj_at AI_AGENTS _) with (Ok (@Inherited AgentConfig (lit "constructor"))).
  reflexivity.
Qed.

(** ** Prompts *)

(** C5, at the agent [chat_reply].  The history of the payload enters the
    prompt through [JSON.stringify] and not through [cleanInput]: a DEL
    character (U+007F) of a message is still in the prompt, and a message
    of 6000 letters is in the prompt in full, where [cleanInput] would have
    removed the character and kept 5000 letters. *)
Theorem chat_history_not_sanitized :
  (exists p, Prompt.chat_reply (Sample.chat [127]) = Ok p /\ In 127 p)
  /\ (exists p pre post,
        Prompt.chat_reply (Sample.chat Sample.long_message) = Ok p
        /\ p = pre ++ Sample.long_message ++ post)
  /\ cleanInput (JStr [127]) = []
  /\ length (cleanInput (JStr Sample.long_message)) = 5000%nat.
Proof.
  split; [|split; [|split; vm_compute; reflexivity]].
  - eexists. split; [vm_compute; reflexivity|].
    vm_compute. tauto.
  - exists (lit "Roleplay as CTO. Product: Meti. History: [{" ++ dq ++ lit "role" ++ dq ++
            lit ":" ++ dq ++ lit "user" ++ dq ++ lit "," ++ dq ++ lit "text" ++ dq ++
            lit ":" ++ dq ++ Sample.long_message ++ dq ++ lit "}]. Reply short.").
    exists (lit "Roleplay as CTO. Product: Meti. History: [{" ++ dq ++ lit "role" ++ dq ++
            lit ":" ++ dq ++ lit "user" ++ dq ++ lit "," ++ dq ++ lit "text" ++ dq ++
            lit ":" ++ dq).
    exists (dq ++ lit "}]. Reply short.").
    split; vm_compute; reflexivity.
Qed.

(** ** Shapes *)

Lemma effects_generate (AGENTS : list (jsstring * AgentConfig)) (genAI : Backend)
    (db : UserDb) (req : Request) (cfg : AgentConfig) (rq : GenRequest) :
  obj_at AGENTS (agent req) = Ok (Own cfg) ->
  In (GenerateContent rq) (effects (serve AGENTS genAI db req)) ->
  exists u p,
    db !! user_id req = Some u /\ quota_exceeded u = false /\
    prompt cfg (payload req) = Ok p /\ rq = gen_request cfg p /\
    serve AGENTS genAI db req = after_quota genAI db req (Own cfg).
Proof.
  intros Hcfg. rewrite serve_unfold, Hcfg.
  destruct (db !! user_id req) as [u|] eqn:Hu; simpl;
    [|intros [|[|[]]]; discriminate].
  destruct (quota_exceeded u) eqn:Hq; simpl; [intros [|[]]; discriminate|].
  intros Hin. exists u. unfold after_quota in *.
  destruct (prompt cfg (payload req)) as [p|e] eqn:Hp; simpl in *;
    [|destruct Hin as [|[|[]]]; discriminate].
  exists p. repeat split; try reflexivity; try assumption.
  destruct (genAI (gen_request cfg p)) as [result|e]; simpl in Hin;
    [|intuition congruence].
  destruct (is_grounding_agent (agent req)); simpl in Hin; [intuition congruence|].
  destruct (defined (schema cfg)); simpl in Hin; [|intuition congruence].
  destruct (parse_output result); simpl in Hin; intuition congruence.
Qed.

(** [result.text] is the text itself, or [undefined]. *)
Lemma text_value_spec (result : GenResponse) :
  text_value result = match text result with
                      | Some s => JStr s
                      | None => JUndefined
                      end.
Proof. reflexivity. Qed.

(** For an agent that is a string, whenever the backend has answered a
    request for an agent of the table, the reply of the route is the one
    the shape declared by the contract calls for: the grounded object (text
    and chunk list) for a contract with tools; for a contract with a schema
    and no tools the parsed value, or the failure reply when parsing fails;
    the text of the answer as it is for a contract with neither. *)
Lemma string_agent_shape (genAI : Backend) (db : UserDb) (req : Request)
    (name : jsstring) (cfg : AgentConfig) (rq : GenRequest) (result : GenResponse) :
  agent req = JStr name ->
  obj_get AI_AGENTS name = Own cfg ->
  In (GenerateContent rq) (effects (serve AI_AGENTS genAI db req)) ->
  genAI rq = Ok result ->
  reply (serve AI_AGENTS genAI db req) =
    Some match declared_shape cfg with
         | Grounded =>
             ok (JObj [(lit "text", match text result with
                                    | Some s => JStr s
                                    | None => JUndefined
                                    end);
                       (lit "mapChunks", JArr (chunks_of (grounding_of result)))])
         | Structured =>
             match parse_output result with
             | Ok v => ok v
             | Throw _ => failed
             end
         | PlainText => ok match text result with
                           | Some s => JStr s
                           | None => JUndefined
                           end
         end.
Proof.
  intros Hname Hcfg Hin Hgen.
  assert (Hat : obj_at AI_AGENTS (agent req) = Ok (Own cfg))
    by (now rewrite Hname, obj_at_string, Hcfg).
  destruct (effects_generate _ _ _ _ _ _ Hat Hin) as (u & p & _ & _ & Hp & -> & ->).
  unfold after_quota, declared_shape. rewrite Hp, Hgen, Hname.
  rewrite (AI_AGENTS_grounding _ _ Hcfg).
  destruct (has_grounding_tools cfg); [reflexivity|].
  destruct (defined (schema cfg)); [|reflexivity].
  now destruct (parse_output result).
Qed.

(** C1, at the agent [["maps_scout"]], an array around the name.  As a
    key of the table the array is the name, so the contract the route
    resolves is the one of [maps_scout], which declares the tool
    [googleMaps] and no schema: the shape it declares is the grounded one,
    and the backend is called with the tool.  But [===] tells the array
    from the name, and the reply to an answer of the backend with the text
    [t] is the bare text [t], where the same request under the name itself
    is answered with the grounded object around [t]. *)
Theorem array_agent_not_grounded (db : UserDb) (id : jsstring)
    (fields : list (jsstring * jsval)) (t : jsstring)
    (um : option UsageMetadata) (cs : option (list Candidate)) :
  (exists cfg,
      obj_at AI_AGENTS (JArr [JStr (lit "maps_scout")]) = Ok (Own cfg)
      /\ obj_at AI_AGENTS (JStr (lit "maps_scout")) = Ok (Own cfg)
      /\ tools cfg = Some [googleMaps] /\ schema cfg = None
      /\ declared_shape cfg = Grounded)
  /\ reply (serve AI_AGENTS
                  (fun _ => Ok {| text := Some t; usageMetadata := um; candidates := cs |})
                  db {| user_id := id; agent := JArr [JStr (lit "maps_scout")];
                        payload := JObj fields |})
     = match db !! id with
       | Some u => if quota_exceeded u then Some quota_rejected else Some (ok (JStr t))
       | None => Some failed
       end
  /\ reply (serve AI_AGENTS
                  (fun _ => Ok {| text := Some t; usageMetadata := um; candidates := cs |})
                  db {| user_id := id; agent := JStr (lit "maps_scout");
                        payload := JObj fields |})
     = match db !! id with
       | Some u =>
           if quota_exceeded u then Some quota_rejected
           else Some (ok (JObj [(lit "text", JStr t);
                                (lit "mapChunks",
                                 JArr (chunks_of
                                         (grounding_of {| text := Some t; usageMetadata := um;
                                                          candidates := cs |})))]))
       | None => Some failed
       end
  /\ forall chunks,
       ok (JStr t) <> ok (JObj [(lit "text", JStr t); (lit "mapChunks", JArr chunks)]).
Proof.
  split; [|split; [|split]].
  - exists Sample.scout. repeat split; vm_compute; reflexivity.
  - rewrite serve_unfold.
    change (obj_at AI_AGENTS _) with (Ok (Own Sample.scout)).
    cbv beta iota. cbn [user_id].
    destruct (db !! id) as [u|]; [|reflexivity].
    destruct (quota_exceeded u); [reflexivity|].
    unfold after_quota, Sample.scout, prompt, Prompt.maps_scout, get, payload.
    destruct (get_own fields (lit "niche")), (get_own fields (lit "location"));
      reflexivity.
  - rewrite serve_unfold.
    change (obj_at AI_AGENTS _) with (Ok (Own Sample.scout)).
    cbv beta iota. cbn [user_id].
    destruct (db !! id) as [u|]; [|reflexivity].
    destruct (quota_exceeded u); [reflexivity|].
    unfold after_quota, Sample.scout, prompt, Prompt.maps_scout, get, payload.
    destruct (get_own fields (lit "niche")), (get_own fields (lit "location"));
      reflexivity.
  - intros chunks. unfold ok, data_body. intros [=].
Qed.

(** ** Structured output *)

(** The grounding branch comes before the parsing: [seo_audit], whose
    contract has tools and a schema, is answered with the grounded object
    around the text as it is. *)
Example seo_audit_answered_grounded :
  reply Sample.audit_run
  = Some (ok (JObj [(lit "text", JStr (lit "[]")); (lit "mapChunks", JArr [])])).
Proof. vm_compute; reflexivity. Qed.



(** ** Charging *)

Lemma usage_of_cost (result : GenResponse) :
  usage_of result =
    match reported_cost result with
    | Some n => if (n =? 0)%Z then 500%Z else n
    | None => 500%Z
    end.
Proof.
  unfold usage_of, reported_cost.
  destruct (usageMetadata result) as [um|]; reflexivity.
Qed.




(** ** The agent name *)




(** * Further properties of the route *)

(** Splits a goal about the route along the branches of the handler. *)
Local Ltac route_cases :=
  rewrite ?serve_unfold; unfold after_quota; simpl;
  repeat match goal with
         | |- context [match ?x with _ => _ end] => destruct x eqn:?; simpl
         end.

(** ** Replies *)

(** The handler answers every request that reaches it with one of four
    replies: the three fixed error replies, whose text depends neither on
    the request nor on what went wrong, or a success around a value. *)
Lemma handler_replies (AGENTS : list (jsstring * AgentConfig))
    (genAI : Backend) (db : UserDb) (req : Request) :
  exists r, reply (serve AGENTS genAI db req) = Some r
            /\ (r = not_found \/ r = quota_rejected \/ r = failed \/ exists v, r = ok v).
Proof. route_cases; eexists; (split; [reflexivity|]); eauto 6. Qed.

(** The route as it is registered, the middleware [authenticateToken]
    and then the handler, answers every request that reaches it, and with
    one of six replies: the five error replies 401, 403, 404, 402 and 500,
    whose bodies are fixed texts that depend neither on the request nor on
    what went wrong, or the status 200 around a value. *)
Theorem replies_are_generic (verify : jsstring -> option Claims)
    (AGENTS : list (jsstring * AgentConfig)) (genAI : Backend) (db : UserDb)
    (http : HttpRequest) :
  exists r,
    reply (post_ai_execute verify AGENTS genAI db http) = Some r
    /\ (r = {| status := 401; body := JObj [(lit "error", JStr (lit "Unauthorized"))] |}
        \/ r = {| status := 403; body := JObj [(lit "error", JStr (lit "Forbidden"))] |}
        \/ r = {| status := 404; body := JObj [(lit "error", JStr (lit "Invalid agent"))] |}
        \/ r = {| status := 402;
                  body := JObj [(lit "error",
                                 JStr (lit "Quota exceeded. Upgrade required."))] |}
        \/ r = {| status := 500;
                  body := JObj [(lit "error", JStr (lit "AI Processing Failed"))] |}
        \/ exists v, r = {| status := 200; body := JObj [(lit "data", v)] |}).
Proof.
  unfold post_ai_execute, authenticateToken.
  destruct (token_of (authorization http)) as [[|c token]|];
    try (eexists; split; [reflexivity|]; left; reflexivity).
  destruct (verify (c :: token)) as [user|];
    [|eexists; split; [reflexivity|]; right; left; reflexivity].
  destruct (handler_replies AGENTS genAI db
              {| user_id := claims_id user; agent := body_agent http;
                 payload := body_payload http |})
    as (r & Hr & Hcases).
  exists r. split; [exact Hr|].
  destruct Hcases as [->|[->|[->|[v ->]]]]; eauto 10.
Qed.

(** The effects of a request come in one order: the read of the user, then
    at most one call of the backend, then the charge for that call, then at
    most one log entry, which carries the error and the user id only.  The
    read of the user is missing only where nothing follows it but the log
    entry: when the agent is answered 404, and when it is a value that
    cannot be made a key of the table. *)
Theorem effects_in_order (AGENTS : list (jsstring * AgentConfig))
    (genAI : Backend) (db : UserDb) (req : Request) :
  exists evs, effects (serve AGENTS genAI db req) = evs
    /\ (evs = []
        \/ (exists e, evs = [LogError e (user_id req)])
        \/ evs = [FindById (user_id req)]
        \/ (exists e, evs = [FindById (user_id req); LogError e (user_id req)])
        \/ (exists rq e, evs = [FindById (user_id req); GenerateContent rq;
                                LogError e (user_id req)])
        \/ (exists rq amount, evs = [FindById (user_id req); GenerateContent rq;
                                     IncTokensUsed (user_id req) amount])
        \/ (exists rq amount e, evs = [FindById (user_id req); GenerateContent rq;
                                       IncTokensUsed (user_id req) amount;
                                       LogError e (user_id req)])).
Proof. route_cases; eexists; (split; [reflexivity|]); eauto 10. Qed.

(** ** The user collection *)

Lemma db_after_cases (AGENTS : list (jsstring * AgentConfig))
    (genAI : Backend) (db : UserDb) (req : Request) :
  (db_after (serve AGENTS genAI db req) = db
   /\ forall rq, In (GenerateContent rq) (effects (serve AGENTS genAI db req)) ->
                 exists e, genAI rq = Throw e)
  \/ exists rq result,
       In (GenerateContent rq) (effects (serve AGENTS genAI db req))
       /\ genAI rq = Ok result
       /\ db_after (serve AGENTS genAI db req)
          = alter (add_tokens (usage_of result)) (user_id req) db.
Proof.
  route_cases;
    try (left; split; [reflexivity|];
         intros rq Hin; simpl in Hin; intuition (try discriminate);
         match goal with H : GenerateContent _ = GenerateContent _ |- _ =>
           injection H as <-; eauto end);
    right; do 2 eexists; (split; [right; left; reflexivity|]); split; eauto.
Qed.

(** A request never creates, removes or changes the document of a user
    other than its caller. *)
Theorem other_users_untouched (AGENTS : list (jsstring * AgentConfig))
    (genAI : Backend) (db : UserDb) (req : Request) (id' : jsstring) :
  id' <> user_id req ->
  db_after (serve AGENTS genAI db req) !! id' = db !! id'.
Proof.
  intros Hne.
  destruct (db_after_cases AGENTS genAI db req) as [[-> _]|(rq & result & _ & _ & ->)];
    [reflexivity|].
  apply lookup_alter_ne. congruence.
Qed.

Lemma other_users_untouched_witness :
  db_after Sample.fenced_run !! lit "u2" = Sample.db !! lit "u2".
Proof.
  apply (other_users_untouched AI_AGENTS (Sample.answering Sample.fenced_score) Sample.db
           (Sample.request "u1" "content_score" (JObj [(lit "keyword", JStr (lit "crm"))]))
           (lit "u2")).
  vm_compute. discriminate.
Defined.

(** A request changes nothing of the document of its caller but the
    counter: the e-mail, password hash, role, subscription and organization
    stay, and no document appears where there was none. *)
Theorem caller_profile_preserved (AGENTS : list (jsstring * AgentConfig))
    (genAI : Backend) (db : UserDb) (req : Request) :
  profile <$> db_after (serve AGENTS genAI db req) !! user_id req
  = profile <$> db !! user_id req.
Proof.
  destruct (db_after_cases AGENTS genAI db req) as [[-> _]|(rq & result & _ & _ & ->)];
    [reflexivity|].
  rewrite lookup_alter_eq. now destruct (db !! user_id req).
Qed.

(** As long as the backend reports no negative cost, the counter of the
    caller never decreases, and it grows exactly when the backend has
    answered, whatever becomes of the answer afterwards. *)
Theorem counter_monotone (AGENTS : list (jsstring * AgentConfig))
    (genAI : Backend) (db : UserDb) (req : Request) (u : User) :
  (forall rq result n, genAI rq = Ok result -> reported_cost result = Some n -> (0 <= n)%Z) ->
  db !! user_id req = Some u ->
  exists u',
    db_after (serve AGENTS genAI db req) !! user_id req = Some u'
    /\ (tokensUsed u <= tokensUsed u')%Z
    /\ ((exists rq result, In (GenerateContent rq) (effects (serve AGENTS genAI db req))
                           /\ genAI rq = Ok result)
        <-> (tokensUsed u < tokensUsed u')%Z).
Proof.
  intros Hcost Hu.
  assert (Hpos : forall rq result, genAI rq = Ok result -> (0 < usage_of result)%Z).
  { intros rq result Hg. rewrite usage_of_cost.
    destruct (reported_cost result) as [n|] eqn:Hn; [|lia].
    specialize (Hcost _ _ _ Hg Hn). destruct (Z.eqb_spec n 0); lia. }
  destruct (db_after_cases AGENTS genAI db req)
    as [[Hdb Hnone]|(rq & result & Hin & Hg & Hdb)].
  - exists u. rewrite Hdb. split; [assumption|]. split; [lia|].
    split; [|lia].
    intros (rq & result & Hin & Hg). destruct (Hnone _ Hin) as [e He]. congruence.
  - exists (add_tokens (usage_of result) u). rewrite Hdb, lookup_alter_eq, Hu.
    specialize (Hpos _ _ Hg). simpl.
    split; [reflexivity|]. split; [lia|]. split; [lia|]. eauto.
Qed.

Lemma counter_monotone_witness :
  exists u',
    db_after Sample.oops_run !! lit "u1" = Some u'
    /\ (tokensUsed Sample.alice <= tokensUsed u')%Z
    /\ ((exists rq result, In (GenerateContent rq) (effects Sample.oops_run)
                           /\ Sample.answering (lit "oops") rq = Ok result)
        <-> (tokensUsed Sample.alice < tokensUsed u')%Z).
Proof.
  apply (counter_monotone AI_AGENTS (Sample.answering (lit "oops")) Sample.db
           (Sample.request "u1" "niche" (JObj [])) Sample.alice).
  - intros rq result n [= <-] [= <-]. lia.
  - vm_compute; reflexivity.
Defined.

(** A valid token whose user is gone from the collection: the request
    fails on the quota check, before any prompt is built or sent. *)
Theorem unknown_user_fails (AGENTS : list (jsstring * AgentConfig))
    (genAI : Backend) (db : UserDb) (req : Request) (cfg : AgentConfig) :
  obj_at AGENTS (agent req) = Ok (Own cfg) ->
  db !! user_id req = None ->
  serve AGENTS genAI db req
  = (Some failed, db, [FindById (user_id req); LogError TypeError (user_id req)]).
Proof. intros Hcfg Hu. now rewrite serve_unfold, Hcfg, Hu. Qed.

Lemma unknown_user_fails_witness :
  serve AI_AGENTS (Sample.answering (lit "[]")) Sample.db (Sample.request "u9" "niche" JNull)
  = (Some failed, Sample.db, [FindById (lit "u9"); LogError TypeError (lit "u9")]).
Proof.
  eapply (unknown_user_fails AI_AGENTS _ Sample.db (Sample.request "u9" "niche" JNull)).
  - unfold obj_at, obj_get; cbv; reflexivity.
  - vm_compute; reflexivity.
Defined.

(** ** Quota *)

(** The quota check is exact on the three tiers: the request is stopped if
    and only if the counter has reached the ceiling of the tier, where a
    user without subscription counts as hobby. *)
Theorem quota_check_exact (u : User) (c : Z) :
  In (tier_key u, c) limits ->
  quota_exceeded u = true <-> (c <= tokensUsed u)%Z.
Proof.
  intros [_ Hc]%limits_own. unfold quota_exceeded. rewrite Hc. simpl.
  apply Z.leb_le.
Qed.

Lemma quota_check_exact_witness :
  quota_exceeded Sample.maxed = true <-> (100000 <= tokensUsed Sample.maxed)%Z.
Proof. apply quota_check_exact. simpl; auto. Defined.

(** A user whose subscription is missing or empty is held to the ceiling
    of the hobby tier. *)
Theorem default_tier_is_hobby (u : User) :
  subscription u = None \/ subscription u = Some [] ->
  quota_exceeded u = (100000 <=? tokensUsed u)%Z.
Proof.
  intros H. unfold quota_exceeded, tier_key.
  destruct H as [-> | ->]; reflexivity.
Qed.

Lemma default_tier_is_hobby_witness :
  quota_exceeded
    {| email := []; password := []; role := []; subscription := None;
       tokensUsed := 100000; organizationId := None |} = true.
Proof.
  rewrite default_tier_is_hobby; [reflexivity|left; reflexivity].
Defined.

(** ** What is sent to the backend *)

(** Every call the route makes for the table of the source is capped at
    8192 output tokens, names one of the two models of the table, asks for
    JSON exactly when it sends a schema, and carries the tools of the
    contract that the key of the agent resolves: [googleMaps] for the key
    [maps_scout], [googleSearch] for the key [seo_audit], none for any
    other key, whether the agent is the name itself or another value with
    that key, such as an array around the name. *)
Theorem backend_request_shape (genAI : Backend) (db : UserDb) (req : Request)
    (rq : GenRequest) :
  In (GenerateContent rq) (effects (serve AI_AGENTS genAI db req)) ->
  req_maxOutputTokens rq = 8192
  /\ (req_model rq = lit "gemini-2.5-flash" \/ req_model rq = lit "gemini-3-pro-preview")
  /\ (req_responseMimeType rq = lit "application/json" <-> req_responseSchema rq <> None)
  /\ (req_responseSchema rq = None -> req_responseMimeType rq = lit "text/plain")
  /\ exists name,
       to_property_key (agent req) = Ok name
       /\ req_tools rq = if str_eqb name (lit "maps_scout") then Some [googleMaps]
                         else if str_eqb name (lit "seo_audit") then Some [googleSearch]
                         else None.
Proof.
  intros Hin.
  destruct (obj_at AI_AGENTS (agent req)) as [[cfg|k|]|e] eqn:Hcfg.
  2,3,4: rewrite serve_unfold, Hcfg in Hin; simpl in Hin;
         repeat match type of Hin with
                | context [match ?x with _ => _ end] => destruct x; simpl in Hin
                end; intuition discriminate.
  destruct (effects_generate _ _ _ _ _ _ Hcfg Hin) as (u & p & _ & _ & _ & -> & _).
  destruct (obj_at_In _ _ _ Hcfg) as (name & Hname & Htable).
  assert (Hall : forallb (fun e =>
            (str_eqb (model (snd e)) (lit "gemini-2.5-flash")
             || str_eqb (model (snd e)) (lit "gemini-3-pro-preview"))
            && bool_decide
                 (tools (snd e)
                  = if str_eqb (fst e) (lit "maps_scout") then Some [googleMaps]
                    else if str_eqb (fst e) (lit "seo_audit") then Some [googleSearch]
                    else None))
            AI_AGENTS = true) by (vm_compute; reflexivity).
  rewrite forallb_forall in Hall. specialize (Hall _ Htable). simpl in Hall.
  apply andb_true_iff in Hall as [Hmodel Htools].
  apply orb_true_iff in Hmodel. rewrite !str_eqb_eq in Hmodel.
  apply bool_decide_eq_true in Htools.
  unfold gen_request; simpl.
  assert (Hmime : lit "text/plain" <> lit "application/json")
    by (vm_compute; discriminate).
  split; [reflexivity|]. split; [assumption|].
  split; [|split].
  - destruct (schema cfg); simpl; split; congruence.
  - now intros ->.
  - exists name. split; assumption.
Qed.

Lemma backend_request_shape_witness :
  exists rq,
    In (GenerateContent rq) (effects Sample.fenced_run)
    /\ req_maxOutputTokens rq = 8192
    /\ (req_responseMimeType rq = lit "application/json" <-> req_responseSchema rq <> None).
Proof.
  eexists. split; [cbv; right; left; reflexivity|].
  edestruct (backend_request_shape (Sample.answering Sample.fenced_score) Sample.db
               (Sample.request "u1" "content_score" (JObj [(lit "keyword", JStr (lit "crm"))])))
    as (H1 & _ & H3 & _).
  - cbv; right; left; reflexivity.
  - split; [exact H1|exact H3].
Defined.

(** * Further properties of the prompts *)

(** ** The sanitizer *)

(** A string without control characters and of at most 5000 code units
    goes through the sanitizer unchanged: ordinary text, in any script, is
    neither rejected nor altered. *)
Theorem cleanInput_keeps_clean_text (s : jsstring) :
  Forall (fun c => is_control c = false) s ->
  (length s <= 5000)%nat ->
  cleanInput (JStr s) = s.
Proof.
  intros Hclean Hlen.
  rewrite cleanInput_string, replace_control_fixed by assumption.
  now apply firstn_all2.
Qed.

Lemma cleanInput_keeps_clean_text_witness :
  cleanInput (JStr (lit "Crème brûlée")) = lit "Crème brûlée".
Proof.
  apply cleanInput_keeps_clean_text.
  - repeat constructor.
  - vm_compute. lia.
Defined.

(** ** Prompt builders *)

Lemma get_defined (d : jsval) (name : string) :
  d <> JUndefined -> d <> JNull -> exists v, get d name = Ok v.
Proof.
  intros Hu Hn. destruct d; try congruence; simpl; eauto.
  destruct (get_own _ _); eauto.
Qed.

Lemma get_throws (d : jsval) (name : string) (e : JsError) :
  get d name = Throw e -> e = TypeError /\ (d = JUndefined \/ d = JNull).
Proof.
  destruct d; simpl; try discriminate; try (intros [= <-]; auto).
  destruct (get_own _ _); discriminate.
Qed.

Lemma Ok_inj {A} (a b : A) : Ok a = Ok b -> a = b.
Proof. now intros [= ->]. Qed.

Lemma clean_literal (l : jsstring) :
  forallb (fun c => negb (is_control c)) l = true ->
  Forall (fun c => is_control c = false) l.
Proof.
  rewrite forallb_forall, List.Forall_forall. intros H c Hc.
  apply H in Hc. now destruct (is_control c).
Qed.

Lemma clean_str_or (a b : jsstring) :
  Forall (fun c => is_control c = false) a ->
  Forall (fun c => is_control c = false) b ->
  Forall (fun c => is_control c = false) (str_or a b).
Proof. now destruct a. Qed.

Lemma clean_slice (n : nat) (s : jsstring) :
  Forall (fun c => is_control c = false) s ->
  Forall (fun c => is_control c = false) (slice 0 n s).
Proof. rewrite slice_from_start. apply Forall_take. Qed.

Lemma length_str_or (a b : jsstring) :
  (length (str_or a b) <= Nat.max (length a) (length b))%nat.
Proof. destruct a; simpl; lia. Qed.

Lemma length_slice (n : nat) (s : jsstring) : (length (slice 0 n s) <= n)%nat.
Proof. rewrite slice_from_start, length_take. lia. Qed.

(** Names the prompt builder of a table entry and reads the payload field
    by field. *)
Local Ltac open_prompt H :=
  cbv beta iota delta
    [snd fst prompt exn_bind
     Prompt.niche Prompt.persona Prompt.magnets Prompt.maps_scout
     Prompt.social_search Prompt.landing_page Prompt.ad_creatives
     Prompt.seo_audit Prompt.seo_keywords Prompt.chat_reply Prompt.follow_up
     Prompt.qualification Prompt.cold_dms Prompt.email_campaign
     Prompt.email_subjects Prompt.objection_handler Prompt.content_score] in H;
  repeat match type of H with
         | context [get ?a ?b] =>
             destruct (get a b) eqn:?; cbv beta iota in H; [|discriminate H]
         end.

Local Ltac clean_parts :=
  rewrite ?Forall_app;
  repeat match goal with |- _ /\ _ => split end;
  lazymatch goal with
  | |- Forall _ (cleanInput _) => apply cleanInput_clean
  | |- Forall _ (slice 0 _ (cleanInput _)) => apply clean_slice, cleanInput_clean
  | |- Forall _ (str_or (cleanInput _) _) =>
      apply clean_str_or; [apply cleanInput_clean|];
      apply clean_literal; vm_compute; reflexivity
  | |- Forall _ _ => apply clean_literal; vm_compute; reflexivity
  end.

Local Ltac measure_parts :=
  rewrite ?length_app;
  repeat match goal with
         | |- context [length (lit ?s)] =>
             let n := eval vm_compute in (length (lit s)) in
             change (length (lit s)) with n
         | |- context [length (cleanInput ?v)] =>
             lazymatch goal with
             | _ : (length (cleanInput v) <= _)%nat |- _ => fail
             | _ => pose proof (cleanInput_length v)
             end
         end;
  repeat match goal with
         | |- context [str_or (cleanInput ?v) ?b] =>
             pose proof (cleanInput_length v);
             pose proof (length_str_or (cleanInput v) b);
             generalize dependent (str_or (cleanInput v) b); intros
         | |- context [slice 0 ?n ?s] =>
             pose proof (length_slice n s); generalize dependent (slice 0 n s); intros
         end;
  repeat match goal with
         | H : context [length (lit ?s)] |- _ =>
             let n := eval vm_compute in (length (lit s)) in
             change (length (lit s)) with n in H
         end;
  change (length dq) with 1%nat in *.

(** For every agent of the table but [chat_reply], and for every payload,
    the prompt holds no control character and at most 15056 code units
    (three sanitized fields and 56 units of fixed text):
    the text of the caller cannot flood the context of the model. *)
Theorem prompts_clean_and_bounded (name : jsstring) (cfg : AgentConfig)
    (d : jsval) (p : jsstring) :
  In (name, cfg) AI_AGENTS ->
  name <> lit "chat_reply" ->
  prompt cfg d = Ok p ->
  Forall (fun c => is_control c = false) p /\ (length p <= 3 * 5000 + 56)%nat.
Proof.
  intros Hin. revert d p.
  assert (Hsmall : (4 <= 5000)%nat /\ (2000 <= 5000)%nat)
    by (split; apply Nat.leb_le; vm_compute; reflexivity).
  assert (Hall : Forall (fun e => forall d p,
              fst e <> lit "chat_reply" -> prompt (snd e) d = Ok p ->
              Forall (fun c => is_control c = false) p /\ (length p <= 3 * 5000 + 56)%nat)
            AI_AGENTS).
  { unfold AI_AGENTS.
    repeat (apply Forall_cons; split); [> .. | apply List.Forall_nil ].
    all: intros d p Hname Hp;
      try (exfalso; apply Hname; reflexivity);
      open_prompt Hp; apply Ok_inj in Hp; subst p;
      (split; [clean_parts | measure_parts ]).
    all: lia. }
  rewrite List.Forall_forall in Hall. intros d p Hname Hp.
  exact (Hall _ Hin d p Hname Hp).
Qed.

Lemma prompts_clean_and_bounded_witness :
  Forall (fun c => is_control c = false)
    (lit "3 rebuttals for: " ++ dq ++ cleanInput (JStr (lit "too pricey")) ++ dq ++
     lit ". Return JSON array strings.")
  /\ (length (lit "3 rebuttals for: " ++ dq ++ cleanInput (JStr (lit "too pricey")) ++ dq ++
              lit ". Return JSON array strings.") <= 3 * 5000 + 56)%nat.
Proof.
  apply (prompts_clean_and_bounded (lit "objection_handler")
           {| model := flash; prompt := Prompt.objection_handler; tools := None;
              schema := Some strings |}
           (JObj [(lit "objection", JStr (lit "too pricey"))])).
  - unfold AI_AGENTS. do 15 right. left. reflexivity.
  - vm_compute. discriminate.
  - reflexivity.
Defined.

Lemma get_Ok_defined (d v : jsval) (name : string) :
  get d name = Ok v -> d <> JUndefined /\ d <> JNull.
Proof. destruct d; simpl; try discriminate; split; discriminate. Qed.

(** Unfolds the prompt builder in the goal and reads the fields, each of
    which is there because its object is neither undefined nor null. *)
Local Ltac build_prompt :=
  cbv beta iota delta
    [snd fst prompt exn_bind
     Prompt.niche Prompt.persona Prompt.magnets Prompt.maps_scout
     Prompt.social_search Prompt.landing_page Prompt.ad_creatives
     Prompt.seo_audit Prompt.seo_keywords Prompt.chat_reply Prompt.follow_up
     Prompt.qualification Prompt.cold_dms Prompt.email_campaign
     Prompt.email_subjects Prompt.objection_handler Prompt.content_score];
  repeat match goal with
         | H : get ?a ?b = Ok _ |- context [get ?a ?b] => rewrite H; cbv beta iota
         | |- context [get ?a ?b] =>
             let H := fresh "Hget" in
             destruct (get_defined a b) as [? H];
             [assumption | assumption | rewrite H; cbv beta iota]
         end.

(** A request without payload, or with the payload null, fails for every
    agent of the table when the prompt is built: the backend is not called
    and nothing is charged. *)
Theorem missing_payload_fails (genAI : Backend) (db : UserDb) (req : Request)
    (cfg : AgentConfig) (u : User) :
  obj_at AI_AGENTS (agent req) = Ok (Own cfg) ->
  payload req = JUndefined \/ payload req = JNull ->
  db !! user_id req = Some u ->
  quota_exceeded u = false ->
  serve AI_AGENTS genAI db req
  = (Some failed, db, [FindById (user_id req); LogError TypeError (user_id req)]).
Proof.
  intros Hcfg Hpayload Hu Hq.
  assert (Hall : Forall (fun e => prompt (snd e) JUndefined = Throw TypeError
                                  /\ prompt (snd e) JNull = Throw TypeError) AI_AGENTS).
  { unfold AI_AGENTS.
    repeat (apply Forall_cons; split); [> .. | apply List.Forall_nil ].
    all: split; reflexivity. }
  rewrite List.Forall_forall in Hall.
  destruct (obj_at_In _ _ _ Hcfg) as (k & _ & Hin).
  destruct (Hall _ Hin) as [H1 H2].
  rewrite serve_unfold, Hcfg, Hu, Hq. unfold after_quota. simpl in *.
  destruct Hpayload as [-> | ->]; [rewrite H1|rewrite H2]; reflexivity.
Qed.

Lemma missing_payload_fails_witness :
  serve AI_AGENTS (Sample.answering (lit "[]")) Sample.db (Sample.request "u1" "niche" JNull)
  = (Some failed, Sample.db, [FindById (lit "u1"); LogError TypeError (lit "u1")]).
Proof.
  eapply (missing_payload_fails _ Sample.db (Sample.request "u1" "niche" JNull)).
  - unfold obj_at, obj_get; cbv; reflexivity.
  - right; reflexivity.
  - vm_compute; reflexivity.
  - reflexivity.
Defined.

(** The agents that read only fields of the payload itself build a prompt
    from every payload that is neither undefined nor null, be it an empty
    object or no object at all: a missing field is read as the empty
    string, the backend is called and the call is charged.  The agent is
    any value whose key [name] is the key of such an agent. *)
Theorem flat_agents_accept_any_payload (genAI : Backend) (db : UserDb) (req : Request)
    (name : jsstring) (cfg : AgentConfig) (u : User) :
  to_property_key (agent req) = Ok name ->
  obj_get AI_AGENTS name = Own cfg ->
  reads_job_title name = false ->
  payload req <> JUndefined -> payload req <> JNull ->
  db !! user_id req = Some u ->
  quota_exceeded u = false ->
  exists p,
    prompt cfg (payload req) = Ok p
    /\ In (GenerateContent (gen_request cfg p)) (effects (serve AI_AGENTS genAI db req)).
Proof.
  intros Hname Hcfg Hflat Hdef Hnull Hu Hq.
  assert (Hat : obj_at AI_AGENTS (agent req) = Ok (Own cfg))
    by (apply obj_at_Own; eauto).
  assert (Hall : Forall (fun e => reads_job_title (fst e) = false ->
                          forall d, d <> JUndefined -> d <> JNull ->
                                    exists p, prompt (snd e) d = Ok p) AI_AGENTS).
  { unfold AI_AGENTS.
    repeat (apply Forall_cons; split); [> .. | apply List.Forall_nil ].
    all: intros Hkey d Hd1 Hd2; try (vm_compute in Hkey; discriminate Hkey).
    all: build_prompt; eexists; reflexivity. }
  rewrite List.Forall_forall in Hall.
  pose proof (get_own_In _ _ _ (proj1 (obj_get_Own _ _ _) Hcfg)) as Hin.
  destruct (Hall _ Hin Hflat _ Hdef Hnull) as [p Hp]. simpl in Hp.
  exists p. split; [assumption|].
  rewrite serve_unfold, Hat, Hu, Hq. unfold after_quota. rewrite Hp.
  repeat match goal with
         | |- context [match ?x with _ => _ end] => destruct x; simpl
         end; auto.
Qed.

Lemma flat_agents_accept_any_payload_witness :
  exists p,
    Prompt.niche (JObj []) = Ok p
    /\ In (GenerateContent
             (gen_request {| model := flash; prompt := Prompt.niche; tools := None;
                             schema := Some (records [("name", SchString);
                                                      ("profitabilityScore", SchInteger);
                                                      ("reasoning", SchString);
                                                      ("marketSizeEstimate", SchString)]) |} p))
          (effects Sample.oops_run).
Proof.
  apply (flat_agents_accept_any_payload (Sample.answering (lit "oops")) Sample.db
           (Sample.request "u1" "niche" (JObj [])) (lit "niche")
           {| model := flash; prompt := Prompt.niche; tools := None;
              schema := Some (records [("name", SchString);
                                       ("profitabilityScore", SchInteger);
                                       ("reasoning", SchString);
                                       ("marketSizeEstimate", SchString)]) |}
           Sample.alice).
  - reflexivity.
  - unfold obj_get; cbv; reflexivity.
  - vm_compute; reflexivity.
  - discriminate.
  - discriminate.
  - vm_compute; reflexivity.
  - reflexivity.
Defined.

(** The four agents that read [d.persona.jobTitle] build a prompt exactly
    when the payload has a persona that is neither undefined nor null;
    the job title itself may be missing. *)
Theorem job_title_agents_need_persona (name : jsstring) (cfg : AgentConfig) (d : jsval) :
  obj_get AI_AGENTS name = Own cfg ->
  reads_job_title name = true ->
  (exists p, prompt cfg d = Ok p)
  <-> (exists persona, get d "persona" = Ok persona
                       /\ persona <> JUndefined /\ persona <> JNull).
Proof.
  intros Hcfg Hreads.
  apply obj_get_Own, get_own_In in Hcfg.
  assert (Hall : Forall (fun e => reads_job_title (fst e) = true ->
              (exists p, prompt (snd e) d = Ok p)
              <-> (exists persona, get d "persona" = Ok persona
                                   /\ persona <> JUndefined /\ persona <> JNull))
            AI_AGENTS).
  { unfold AI_AGENTS.
    repeat (apply Forall_cons; split); [> .. | apply List.Forall_nil ].
    all: intros Hname; try (vm_compute in Hname; discriminate Hname).
    all: split;
      [ intros [p Hp]; open_prompt Hp;
        match goal with
        | H : get _ "persona" = Ok ?a, H' : get ?a "jobTitle" = Ok _ |- _ =>
            exists a; split; [reflexivity|exact (get_Ok_defined _ _ _ H')]
        end
      | intros (persona & Hpersona & Hp1 & Hp2);
        destruct (get_Ok_defined _ _ _ Hpersona);
        build_prompt; eexists; reflexivity ]. }
  rewrite List.Forall_forall in Hall. exact (Hall _ Hcfg Hreads).
Qed.

Lemma job_title_agents_need_persona_witness :
  (exists p, Prompt.cold_dms (JObj [(lit "productName", JStr (lit "Meti"))]) = Ok p)
  <-> (exists persona,
         get (JObj [(lit "productName", JStr (lit "Meti"))]) "persona" = Ok persona
         /\ persona <> JUndefined /\ persona <> JNull).
Proof.
  apply (job_title_agents_need_persona (lit "cold_dms")
           {| model := flash; prompt := Prompt.cold_dms; tools := None;
              schema := Some strings |}).
  - unfold obj_get; cbv; reflexivity.
  - vm_compute; reflexivity.
Defined.

(** * Authentication *)

Lemma split_fields_plain (sep : N) (s : jsstring) :
  Forall (fun c => c <> sep) s -> split_fields sep s = (s, []).
Proof.
  induction 1 as [|c s Hc _ IH]; simpl; [reflexivity|].
  rewrite IH. apply N.eqb_neq in Hc. now rewrite Hc.
Qed.

Lemma split_fields_app (sep : N) (a b : jsstring) :
  Forall (fun c => c <> sep) a ->
  split_fields sep (a ++ sep :: b) = (a, fst (split_fields sep b) :: snd (split_fields sep b)).
Proof.
  induction 1 as [|c a Hc _ IH]; simpl.
  - rewrite N.eqb_refl. now destruct (split_fields sep b).
  - rewrite IH. apply N.eqb_neq in Hc. now rewrite Hc.
Qed.

(** The token is the second of the fields that single spaces separate in
    the header: the scheme before it is not looked at, what follows a
    second space is ignored, and an empty second field counts as no token.
    A token that does not verify is answered 403; one that does becomes
    the user of the request. *)
Theorem token_is_second_field (verify : jsstring -> option Claims)
    (scheme token rest : jsstring) :
  Forall (fun c => c <> 32) scheme ->
  Forall (fun c => c <> 32) token ->
  rest = [] \/ (exists r, rest = 32 :: r) ->
  authenticateToken verify (Some (scheme ++ 32 :: token ++ rest))
  = match token with
    | [] => inl unauthorized
    | _ => match verify token with
           | Some user => inr user
           | None => inl forbidden
           end
    end.
Proof.
  intros Hscheme Htoken Hrest.
  assert (Hsplit : token_of (Some (scheme ++ 32 :: token ++ rest)) = Some token).
  { unfold token_of, split. rewrite split_fields_app by assumption. simpl.
    f_equal. destruct Hrest as [-> | [r ->]].
    - rewrite app_nil_r. now rewrite split_fields_plain.
    - now rewrite split_fields_app. }
  unfold authenticateToken. rewrite Hsplit. now destruct token.
Qed.

Lemma token_is_second_field_witness :
  authenticateToken (fun t => if str_eqb t (lit "good") then
                                Some {| claims_id := lit "u1"; claims_role := lit "user" |}
                              else None)
    (Some (lit "Basic" ++ 32 :: lit "good" ++ lit " trailing"))
  = inr {| claims_id := lit "u1"; claims_role := lit "user" |}.
Proof.
  eapply eq_trans.
  - apply (token_is_second_field _ (lit "Basic") (lit "good") (lit " trailing")).
    + repeat constructor; discriminate.
    + repeat constructor; discriminate.
    + right. eexists. reflexivity.
  - reflexivity.
Defined.

(** A request without the header, or whose header holds no space, is
    answered 401 without any token being verified. *)
Theorem no_token_unauthorized (verify : jsstring -> option Claims)
    (header : option jsstring) :
  (forall h, header = Some h -> Forall (fun c => c <> 32) h) ->
  authenticateToken verify header = inl unauthorized.
Proof.
  intros Hplain. destruct header as [h|]; [|reflexivity].
  unfold authenticateToken, token_of, split.
  now rewrite split_fields_plain by auto.
Qed.

Lemma no_token_unauthorized_witness :
  authenticateToken (fun _ => Some {| claims_id := lit "u1"; claims_role := lit "admin" |})
    (Some (lit "Bearer"))
  = inl unauthorized.
Proof.
  apply no_token_unauthorized. intros h [= <-]. repeat constructor; discriminate.
Defined.

(** Whatever a request to the route reads, charges or logs concerns the
    user that a verified token names: without a token that verifies there
    is no effect at all, and the collection is as before. *)
Theorem effects_need_verified_token (verify : jsstring -> option Claims)
    (AGENTS : list (jsstring * AgentConfig)) (genAI : Backend) (db : UserDb)
    (http : HttpRequest) :
  (exists token user,
      token_of (authorization http) = Some token
      /\ verify token = Some user
      /\ Forall (fun ev => forall id, event_user ev = Some id -> id = claims_id user)
           (effects (post_ai_execute verify AGENTS genAI db http))
      /\ forall id, id <> claims_id user ->
                    db_after (post_ai_execute verify AGENTS genAI db http) !! id = db !! id)
  \/ (effects (post_ai_execute verify AGENTS genAI db http) = []
      /\ db_after (post_ai_execute verify AGENTS genAI db http) = db
      /\ (reply (post_ai_execute verify AGENTS genAI db http) = Some unauthorized
          \/ reply (post_ai_execute verify AGENTS genAI db http) = Some forbidden)).
Proof.
  unfold post_ai_execute, authenticateToken.
  destruct (token_of (authorization http)) as [[|c token]|]; simpl; auto.
  destruct (verify (c :: token)) as [user|] eqn:Hverify; simpl; auto.
  left. exists (c :: token), user. repeat split; try assumption.
  - set (req := {| user_id := claims_id user; agent := body_agent http;
                   payload := body_payload http |}).
    destruct (effects_in_order AGENTS genAI db req) as (evs & -> & Hevs).
    decompose [or ex] Hevs; subst evs; repeat constructor;
      simpl; intros id [= <-]; reflexivity.
  - intros id Hid. now apply other_users_untouched.
Qed.

(** * Projects and clients *)

Lemma of_user_owner {D} `{Owned D} (user : jsstring) (d : D) :
  of_user user d = true <-> userId d = Some user.
Proof.
  unfold of_user. destruct (userId d) as [owner|]; [|split; discriminate].
  rewrite str_eqb_eq. split; congruence.
Qed.

Lemma owned_by_spec {D} `{Owned D} (id : ObjectId) (user : jsstring) (d : D) :
  owned_by id user d = true <-> _id d = id /\ userId d = Some user.
Proof.
  unfold owned_by. rewrite andb_true_iff, N.eqb_eq.
  fold (of_user user d). now rewrite of_user_owner.
Qed.

(** ** Listing *)

Lemma insert_newest_perm (p : Project) (l : list Project) :
  insert_newest p l ≡ₚ p :: l.
Proof.
  induction l as [|q l IH]; simpl; [reflexivity|].
  destruct (updatedAt q <? updatedAt p)%Z; [reflexivity|].
  rewrite IH. apply Permutation_swap.
Qed.

Lemma sort_newest_perm (l : list Project) : sort_newest l ≡ₚ l.
Proof.
  induction l as [|p l IH]; simpl; [reflexivity|].
  now rewrite insert_newest_perm, IH.
Qed.

Lemma insert_newest_sorted (p : Project) (l : list Project) :
  StronglySorted (fun a b => (updatedAt b <= updatedAt a)%Z) l ->
  StronglySorted (fun a b => (updatedAt b <= updatedAt a)%Z) (insert_newest p l).
Proof.
  induction 1 as [|q l Hl IH Hq]; simpl; [repeat constructor|].
  destruct (Z.ltb_spec (updatedAt q) (updatedAt p)).
  - constructor; [now constructor|].
    constructor; [lia|]. eapply List.Forall_impl; [|exact Hq]. simpl. lia.
  - constructor; [assumption|].
    rewrite insert_newest_perm. constructor; [lia|assumption].
Qed.

Lemma sort_newest_sorted (l : list Project) :
  StronglySorted (fun a b => (updatedAt b <= updatedAt a)%Z) (sort_newest l).
Proof.
  induction l as [|p l IH]; simpl; [constructor|]. now apply insert_newest_sorted.
Qed.

(** The listing of a user holds projects of that user only, each one a
    document of the collection, at most 50 of them, newest first; a
    project of the user is left out only when 50 are listed that are all at
    least as recent. *)
Theorem list_projects_spec (user : jsstring) (coll : list Project) :
  Forall (fun p => project_userId p = Some user) (list_projects user coll)
  /\ (length (list_projects user coll) <= 50)%nat
  /\ StronglySorted (fun a b => (updatedAt b <= updatedAt a)%Z) (list_projects user coll)
  /\ list_projects user coll ⊆+ coll
  /\ forall p, In p coll -> project_userId p = Some user ->
               ~ In p (list_projects user coll) ->
               length (list_projects user coll) = 50%nat
               /\ Forall (fun q => (updatedAt p <= updatedAt q)%Z) (list_projects user coll).
Proof.
  unfold list_projects.
  set (own := List.filter (of_user user) coll).
  assert (Hsub : take 50 (sort_newest own) ⊆+ coll).
  { transitivity (sort_newest own); [apply sublist_submseteq, sublist_take|].
    rewrite sort_newest_perm. apply sublist_submseteq.
    unfold own. clear. induction coll as [|p coll IH]; simpl; [constructor|].
    destruct (of_user user p); now constructor. }
  assert (Hsorted := sort_newest_sorted own).
  rewrite <- (take_drop 50 (sort_newest own)) in Hsorted.
  split; [|split; [|split; [|split]]].
  - apply Forall_take. rewrite sort_newest_perm. unfold own.
    apply List.Forall_forall. intros p [_ Hp]%filter_In.
    now apply (of_user_owner (D := Project)) in Hp.
  - rewrite length_take. lia.
  - eapply StronglySorted_app_1_l, Hsorted.
  - exact Hsub.
  - intros p Hin Howner Hout.
    assert (Hp : In p (sort_newest own)).
    { apply list_elem_of_In. rewrite sort_newest_perm. apply list_elem_of_In.
      unfold own. apply filter_In. split; [assumption|].
      now apply (of_user_owner (D := Project)). }
    rewrite <- (take_drop 50 (sort_newest own)) in Hp.
    apply in_app_or in Hp as [Hp|Hp]; [contradiction|].
    split.
    + rewrite length_take. apply Nat.min_l.
      destruct (Nat.le_gt_cases 50 (length (sort_newest own))) as [|Hshort];
        [assumption|].
      rewrite drop_ge in Hp by lia. destruct Hp.
    + apply List.Forall_forall. intros q Hq.
      apply (StronglySorted_app_1_elem_of _ _ _ q p Hsorted);
        now apply list_elem_of_In.
Qed.

(** ** Updating and deleting *)

Section FindOne.

Context {D : Type} `{Owned D}.
Variable filter : D -> bool.

Lemma findOneAndUpdate_others (update : D -> D) (coll : list D) (i : nat) (d : D) :
  coll !! i = Some d -> filter d = false ->
  snd (findOneAndUpdate filter update coll) !! i = Some d.
Proof.
  revert i; induction coll as [|c coll IH]; intros i Hi Hd; [discriminate|].
  simpl. destruct (filter c) eqn:Hc.
  - destruct i; simpl in *; [congruence|assumption].
  - destruct (findOneAndUpdate filter update coll) as [found coll'] eqn:Hrec.
    destruct i; simpl in *; [assumption|]. now apply IH.
Qed.

Lemma findOneAndUpdate_none (update : D -> D) (coll : list D) :
  fst (findOneAndUpdate filter update coll) = None ->
  snd (findOneAndUpdate filter update coll) = coll
  /\ Forall (fun d => filter d = false) coll.
Proof.
  induction coll as [|c coll IH]; simpl; [now repeat constructor|].
  destruct (filter c) eqn:Hc; [discriminate|].
  destruct (findOneAndUpdate filter update coll) as [found coll']. simpl in *.
  intros Hfound. destruct (IH Hfound) as [-> Hall]. now repeat constructor.
Qed.

Lemma findOneAndUpdate_no_match (update : D -> D) (coll : list D) :
  Forall (fun d => filter d = false) coll ->
  findOneAndUpdate filter update coll = (None, coll).
Proof.
  induction 1 as [|c coll Hc _ IH]; simpl; [reflexivity|].
  now rewrite Hc, IH.
Qed.

Lemma findOneAndUpdate_some (update : D -> D) (coll : list D) (d' : D) :
  fst (findOneAndUpdate filter update coll) = Some d' ->
  exists d, In d coll /\ filter d = true /\ d' = update d
            /\ In d' (snd (findOneAndUpdate filter update coll)).
Proof.
  induction coll as [|c coll IH]; simpl; [discriminate|].
  destruct (filter c) eqn:Hc.
  - intros [= <-]. exists c. simpl. auto.
  - destruct (findOneAndUpdate filter update coll) as [found coll']. simpl in *.
    intros Hfound. destruct (IH Hfound) as (d & Hin & Hd & -> & Hin').
    exists d. auto.
Qed.

Lemma findOneAndUpdate_map {B} (f : D -> B) (update : D -> D) (coll : list D) :
  (forall d, f (update d) = f d) ->
  List.map f (snd (findOneAndUpdate filter update coll)) = List.map f coll.
Proof.
  intros Hf. induction coll as [|c coll IH]; simpl; [reflexivity|].
  destruct (filter c); simpl; [now rewrite Hf|].
  destruct (findOneAndUpdate filter update coll) as [found coll']. simpl in *.
  now rewrite IH.
Qed.

Lemma deleteOne_sublist (coll : list D) : deleteOne filter coll `sublist_of` coll.
Proof.
  induction coll as [|c coll IH]; simpl; [constructor|].
  destruct (filter c); [now apply sublist_cons_r; left|now constructor].
Qed.

Lemma deleteOne_keeps (coll : list D) (d : D) :
  In d coll -> filter d = false -> In d (deleteOne filter coll).
Proof.
  induction coll as [|c coll IH]; simpl; [tauto|].
  intros [->|Hin] Hd.
  - rewrite Hd. now left.
  - destruct (filter c); [assumption|]. right. now apply IH.
Qed.

Lemma deleteOne_length (coll : list D) :
  (length coll <= S (length (deleteOne filter coll)))%nat.
Proof.
  induction coll as [|c coll IH]; simpl; [lia|].
  destruct (filter c); simpl; lia.
Qed.

End FindOne.

(** An update of a project changes no project of another user and none
    with another id, whatever the body: every such document stays at its
    place as it is, the ids and the owners of all documents stay, and when
    the answer is 404 the whole collection is as before. *)
Theorem put_project_isolation (cast_id : jsstring -> option ObjectId)
    (cast_string cast_object : jsval -> option (jsval -> jsval))
    (to_json : Project -> jsval)
    (now : Z) (user id : jsstring) (body : jsval) (coll : list Project) :
  (forall i p, coll !! i = Some p ->
               project_userId p <> Some user \/ cast_id id <> Some (project_id p) ->
               snd (put_project cast_id cast_string cast_object to_json now user id body coll)
                 !! i = Some p)
  /\ List.map project_id
       (snd (put_project cast_id cast_string cast_object to_json now user id body coll))
     = List.map project_id coll
  /\ List.map project_userId
       (snd (put_project cast_id cast_string cast_object to_json now user id body coll))
     = List.map project_userId coll
  /\ (fst (put_project cast_id cast_string cast_object to_json now user id body coll)
      = Some json_not_found ->
      snd (put_project cast_id cast_string cast_object to_json now user id body coll) = coll
      /\ Forall (fun p => project_userId p = Some user -> cast_id id <> Some (project_id p))
           coll).
Proof.
  unfold put_project.
  destruct (get body "data") as [d|]; [|simpl; repeat split; auto; discriminate].
  destruct (get body "clientName") as [cn|]; [|simpl; repeat split; auto; discriminate].
  destruct (get body "clientId") as [ci|]; [|simpl; repeat split; auto; discriminate].
  destruct (cast_id id) as [oid|]; [|simpl; repeat split; auto; discriminate].
  destruct (cast_object d) as [d'|]; [|simpl; repeat split; auto; discriminate].
  destruct (cast_string cn) as [cn'|]; [|simpl; repeat split; auto; discriminate].
  destruct (cast_string ci) as [ci'|]; [|simpl; repeat split; auto; discriminate].
  pose proof (findOneAndUpdate_others (owned_by oid user) (set_project d' cn' ci' now) coll)
    as Hothers.
  pose proof (findOneAndUpdate_map (owned_by oid user) project_id
                (set_project d' cn' ci' now) coll (fun _ => eq_refl)) as Hids.
  pose proof (findOneAndUpdate_map (owned_by oid user) project_userId
                (set_project d' cn' ci' now) coll (fun _ => eq_refl)) as Howners.
  pose proof (findOneAndUpdate_none (owned_by oid user) (set_project d' cn' ci' now) coll)
    as Hnone.
  destruct (findOneAndUpdate (owned_by oid user) (set_project d' cn' ci' now) coll)
    as [[p|] coll']; simpl in *.
  - repeat split; try assumption; try discriminate.
    intros i q Hq Hother. apply Hothers; [assumption|].
    destruct (owned_by oid user q) eqn:Hown; [|reflexivity].
    apply (owned_by_spec (D := Project)) in Hown as [Hid Hu]. simpl in *.
    destruct Hother; congruence.
  - destruct (Hnone eq_refl) as [-> Hall].
    repeat split; try reflexivity; try assumption.
    + intros i q Hq _. assumption.
    + eapply List.Forall_impl; [|exact Hall]. intros q Hq Hu [= ->].
      assert (owned_by (project_id q) user q = true)
        by (apply (owned_by_spec (D := Project)); auto).
      congruence.
Qed.

(** A deletion is answered as a success whenever the id is well formed,
    whether or not anything was deleted; it removes at most one document,
    and never one of another user or with another id. *)
Theorem delete_project_isolation (cast_id : jsstring -> option ObjectId)
    (user id : jsstring) (coll : list Project) (oid : ObjectId) :
  cast_id id = Some oid ->
  fst (delete_project cast_id user id coll) = Some json_success
  /\ snd (delete_project cast_id user id coll) `sublist_of` coll
  /\ (length coll <= S (length (snd (delete_project cast_id user id coll))))%nat
  /\ forall p, In p coll ->
               project_userId p <> Some user \/ project_id p <> oid ->
               In p (snd (delete_project cast_id user id coll)).
Proof.
  intros Hid. unfold delete_project. rewrite Hid. simpl.
  split; [reflexivity|]. split; [apply deleteOne_sublist|].
  split; [apply deleteOne_length|].
  intros p Hin Hother. apply deleteOne_keeps; [assumption|].
  destruct (owned_by oid user p) eqn:Hown; [|reflexivity].
  apply (owned_by_spec (D := Project)) in Hown as [Hp Hu]. simpl in *.
  destruct Hother; congruence.
Qed.

Lemma delete_project_isolation_witness :
  fst (delete_project (fun _ => Some 7) (lit "u1") (lit "7")
         [{| project_id := 7; project_userId := Some (lit "u2"); name := JNull;
             clientName := JNull; clientId := JNull; data := JNull; updatedAt := 0 |}])
  = Some json_success
  /\ snd (delete_project (fun _ => Some 7) (lit "u1") (lit "7")
            [{| project_id := 7; project_userId := Some (lit "u2"); name := JNull;
                clientName := JNull; clientId := JNull; data := JNull; updatedAt := 0 |}])
     = [{| project_id := 7; project_userId := Some (lit "u2"); name := JNull;
           clientName := JNull; clientId := JNull; data := JNull; updatedAt := 0 |}].
Proof.
  destruct (delete_project_isolation (fun _ => Some 7) (lit "u1") (lit "7")
              [{| project_id := 7; project_userId := Some (lit "u2"); name := JNull;
                  clientName := JNull; clientId := JNull; data := JNull;
                  updatedAt := 0 |}] 7 eq_refl) as (Hreply & _).
  split; [exact Hreply|reflexivity].
Defined.

(** The update and the deletion of a client leave every client of another
    user in the collection as it is, whatever the body of the update.
    Every answer to an update has status 200; an update that Mongoose
    accepts and that finds no client of the caller with that id is
    answered with status 200 and [null], the collection unchanged, and no
    other update is answered [null] unless the document itself serializes
    to it. *)
Theorem client_routes_isolation (cast_id : jsstring -> option ObjectId)
    (cast_update : jsval -> option (Client -> Client)) (to_json : Client -> jsval)
    (user id : jsstring) (patch : jsval) (coll : list Client) :
  (forall i c, coll !! i = Some c -> client_userId c <> Some user ->
               snd (put_client cast_id cast_update to_json user id patch coll) !! i = Some c)
  /\ (forall c, In c coll -> client_userId c <> Some user ->
                In c (snd (delete_client cast_id user id coll)))
  /\ (forall r, fst (put_client cast_id cast_update to_json user id patch coll) = Some r ->
                status r = 200
                /\ (body r = JNull \/ exists c, In c coll /\ client_userId c = Some user
                                                 /\ cast_id id = Some (client_id c)))
  /\ (forall oid update,
        cast_id id = Some oid -> cast_update patch = Some update ->
        Forall (fun c => client_userId c <> Some user \/ client_id c <> oid) coll ->
        put_client cast_id cast_update to_json user id patch coll
        = (Some {| status := 200; body := JNull |}, coll))
  /\ (Forall (fun c => client_userId c <> Some user) coll ->
      snd (put_client cast_id cast_update to_json user id patch coll) = coll).
Proof.
  assert (Hforeign : forall oid c, client_userId c <> Some user ->
                                   owned_by oid user c = false).
  { intros oid c Hc. destruct (owned_by oid user c) eqn:Hown; [|reflexivity].
    apply (owned_by_spec (D := Client)) in Hown as [_ Hu]. simpl in *. congruence. }
  unfold put_client, delete_client.
  destruct (cast_id id) as [oid|]; simpl.
  2: { repeat split; auto; discriminate. }
  split; [|split; [|split; [|split]]].
  - intros i c Hi Hc.
    destruct (cast_update patch) as [update|]; [|assumption].
    pose proof (findOneAndUpdate_others (owned_by oid user) update coll i c Hi
                  (Hforeign oid c Hc)) as H.
    now destruct (findOneAndUpdate (owned_by oid user) update coll) as [[c'|] coll'].
  - intros c Hin Hc. now apply deleteOne_keeps; [|apply Hforeign].
  - intros r. destruct (cast_update patch) as [update|]; [|discriminate].
    pose proof (findOneAndUpdate_some (owned_by oid user) update coll) as Hsome.
    destruct (findOneAndUpdate (owned_by oid user) update coll) as [[c'|] coll'];
      simpl in *; intros [= <-]; (split; [reflexivity|]); [|now left].
    right. destruct (Hsome c' eq_refl) as (c & Hin & Hown & _).
    apply (owned_by_spec (D := Client)) in Hown as [<- Hu]. eauto.
  - intros oid' update [= <-] -> Hall.
    rewrite findOneAndUpdate_no_match; [reflexivity|].
    eapply List.Forall_impl; [|exact Hall]. intros c Hc.
    destruct (owned_by oid user c) eqn:Hown; [|reflexivity].
    apply (owned_by_spec (D := Client)) in Hown as [Hid Hu]. simpl in *.
    destruct Hc; congruence.
  - intros Hall. destruct (cast_update patch) as [update|]; [|reflexivity].
    pose proof (findOneAndUpdate_none (owned_by oid user) update coll) as Hnone.
    pose proof (findOneAndUpdate_some (owned_by oid user) update coll) as Hsome.
    destruct (findOneAndUpdate (owned_by oid user) update coll) as [[c'|] coll'];
      simpl in *; [|now apply Hnone].
    destruct (Hsome c' eq_refl) as (c & Hin & Hown & _).
    rewrite List.Forall_forall in Hall. rewrite Hforeign in Hown by auto. discriminate.
Qed.

(** ** Creating a client *)

Lemma str_eqb_sym (a b : jsstring) : str_eqb a b = str_eqb b a.
Proof.
  destruct (str_eqb a b) eqn:E.
  - apply str_eqb_eq in E. subst. now rewrite str_eqb_refl.
  - destruct (str_eqb b a) eqn:E'; [|reflexivity].
    apply str_eqb_eq in E'. subst. now rewrite str_eqb_refl in E.
Qed.

Lemma get_own_replace (k k' : jsstring) (v : jsval) (o o' : list (jsstring * jsval)) :
  replace_own k v o = Some o' ->
  get_own o' k' = if str_eqb k' k then Some v else get_own o k'.
Proof.
  revert o'; induction o as [|[k0 v0] o IH]; intros o'; simpl; [discriminate|].
  destruct (str_eqb k k0) eqn:E.
  - intros [= <-]. simpl. apply str_eqb_eq in E. subst k0.
    now destruct (str_eqb k' k).
  - destruct (replace_own k v o) as [o1|]; [|discriminate].
    intros [= <-]. simpl. rewrite (IH o1 eq_refl).
    destruct (str_eqb k' k0) eqn:E0; [|reflexivity].
    apply str_eqb_eq in E0. subst k0.
    now rewrite str_eqb_sym, E.
Qed.

Lemma get_own_replace_none (k k' : jsstring) (v : jsval) (o : list (jsstring * jsval)) :
  replace_own k v o = None -> get_own o k = None.
Proof.
  induction o as [|[k0 v0] o IH]; simpl; [reflexivity|].
  destruct (str_eqb k k0); [discriminate|].
  destruct (replace_own k v o); [discriminate|auto].
Qed.

Lemma get_own_insert_index (i : Z) (k k' : jsstring) (v : jsval)
    (o : list (jsstring * jsval)) :
  get_own o k = None ->
  get_own (insert_index i k v o) k' = if str_eqb k' k then Some v else get_own o k'.
Proof.
  induction o as [|[k0 v0] o IH]; simpl; [reflexivity|].
  destruct (str_eqb k k0) eqn:E; [discriminate|]. intros Hnone.
  assert (Hk0 : str_eqb k' k = true -> str_eqb k' k0 = false).
  { intros ->%str_eqb_eq. exact E. }
  destruct (array_index k0) as [j|]; [destruct (j <? i)%Z|]; simpl;
    rewrite ?IH by assumption;
    destruct (str_eqb k' k) eqn:Ek; rewrite ?Hk0 by reflexivity; reflexivity.
Qed.

Lemma get_own_app (k k' : jsstring) (v : jsval) (o : list (jsstring * jsval)) :
  get_own o k = None ->
  get_own (o ++ [(k, v)]) k' = if str_eqb k' k then Some v else get_own o k'.
Proof.
  induction o as [|[k0 v0] o IH]; simpl; [reflexivity|].
  destruct (str_eqb k k0) eqn:E; [discriminate|]. intros Hnone.
  rewrite IH by assumption.
  destruct (str_eqb k' k0) eqn:E0; [|reflexivity].
  apply str_eqb_eq in E0. subst k0.
  now rewrite str_eqb_sym, E.
Qed.

(** Reading a property after [o[k] = v]. *)
Lemma get_own_obj_set (k k' : jsstring) (v : jsval) (o : list (jsstring * jsval)) :
  get_own (obj_set k v o) k' = if str_eqb k' k then Some v else get_own o k'.
Proof.
  unfold obj_set. destruct (replace_own k v o) as [o'|] eqn:Hr.
  - now apply get_own_replace.
  - apply (get_own_replace_none k k' v) in Hr.
    destruct (array_index k); [now apply get_own_insert_index|now apply get_own_app].
Qed.

Lemma spread_owner (body base : list (jsstring * jsval)) (owner : jsval) :
  get_own base (lit "userId") = Some owner ->
  NoDup (List.map fst body) ->
  get_own (spread body base) (lit "userId")
  = Some (default owner (get_own body (lit "userId"))).
Proof.
  unfold spread. revert owner base.
  induction body as [|[k v] body IH]; intros owner base Hbase Hnodup;
    [assumption|].
  cbn [fold_left get_own fst snd].
  inversion Hnodup as [|? ? Hk Hrest]; subst.
  destruct (str_eqb (lit "userId") k) eqn:E.
  - apply str_eqb_eq in E. subst k.
    rewrite (IH v); [|rewrite get_own_obj_set, str_eqb_refl; reflexivity|assumption].
    destruct (get_own body (lit "userId")) as [w|] eqn:Hg; [|reflexivity].
    apply get_own_In in Hg. exfalso. apply Hk.
    apply list_elem_of_In, in_map_iff. now exists (lit "userId", w).
  - apply IH; [|assumption]. now rewrite get_own_obj_set, E.
Qed.

(** The owner of the client that the creation route hands to the model is
    the [userId] of the request body when the body has one, and the
    caller only when it has none: the spread of the body comes after the
    id of the caller. *)
Theorem new_client_owner (user : jsstring) (body : list (jsstring * jsval)) :
  NoDup (List.map fst body) ->
  get_own (new_client user body) (lit "userId")
  = Some (default (JStr user) (get_own body (lit "userId"))).
Proof. intros Hnodup. now apply spread_owner. Qed.

Lemma new_client_owner_witness :
  get_own (new_client (lit "u1") [(lit "name", JStr (lit "Acme"));
                                  (lit "userId", JStr (lit "u2"))]) (lit "userId")
  = Some (JStr (lit "u2")).
Proof.
  apply (new_client_owner (lit "u1") [(lit "name", JStr (lit "Acme"));
                                      (lit "userId", JStr (lit "u2"))]).
  simpl. apply NoDup_cons. split; [|apply NoDup_singleton].
  rewrite list_elem_of_In. simpl. intros [H|[]]. vm_compute in H. discriminate.
Defined.

Lemma findOneAndUpdate_first {D} (filter : D -> bool) (update : D -> D)
    (before after : list D) (d : D) :
  Forall (fun x => filter x = false) before ->
  filter d = true ->
  findOneAndUpdate filter update (before ++ d :: after)
  = (Some (update d), before ++ update d :: after).
Proof.
  induction 1 as [|x before Hx _ IH]; intros Hd; simpl.
  - now rewrite Hd.
  - now rewrite Hx, IH.
Qed.

(** An update of a project of the caller stores in the three fields what
    Mongoose makes of the values of the body, and the time of the request;
    it keeps the id, the owner and the name, leaves the other documents
    alone, and is answered with the project as updated. *)
Theorem put_project_updates_own (cast_id : jsstring -> option ObjectId)
    (cast_string cast_object : jsval -> option (jsval -> jsval))
    (to_json : Project -> jsval)
    (now : Z) (user id : jsstring) (fields : list (jsstring * jsval))
    (before after : list Project) (p : Project) (d cn ci : jsval -> jsval) :
  cast_id id = Some (project_id p) ->
  project_userId p = Some user ->
  Forall (fun q => project_id q <> project_id p) before ->
  cast_object (default JUndefined (get_own fields (lit "data"))) = Some d ->
  cast_string (default JUndefined (get_own fields (lit "clientName"))) = Some cn ->
  cast_string (default JUndefined (get_own fields (lit "clientId"))) = Some ci ->
  put_project cast_id cast_string cast_object to_json now user id (JObj fields)
    (before ++ p :: after)
  = (Some {| status := 200;
             body := to_json {| project_id := project_id p; project_userId := Some user;
                                name := name p; clientName := cn (clientName p);
                                clientId := ci (clientId p);
                                data := d (data p); updatedAt := now |} |},
     before ++ {| project_id := project_id p; project_userId := Some user;
                  name := name p; clientName := cn (clientName p);
                  clientId := ci (clientId p);
                  data := d (data p); updatedAt := now |} :: after).
Proof.
  intros Hid Howner Hbefore Hd Hcn Hci.
  unfold put_project, get.
  assert (Hfield : forall k, match get_own fields (lit k) with
                             | Some v => Ok v
                             | None => Ok JUndefined
                             end = Ok (default JUndefined (get_own fields (lit k))))
    by (intros k; now destruct (get_own fields (lit k))).
  rewrite !Hfield, Hid, Hd, Hcn, Hci.
  rewrite findOneAndUpdate_first.
  - unfold set_project. now rewrite Howner.
  - eapply List.Forall_impl; [|exact Hbefore]. intros q Hq.
    unfold owned_by. simpl. apply N.eqb_neq in Hq. now rewrite Hq.
  - apply (owned_by_spec (D := Project)). auto.
Qed.

Lemma put_project_updates_own_witness :
  put_project (fun _ => Some 7)
    (fun v => match v with JUndefined => Some id | _ => Some (fun _ => v) end)
    (fun v => match v with JUndefined => Some id | _ => Some (fun _ => v) end)
    (fun p => data p) 1700000000000 (lit "u1") (lit "7")
    (JObj [(lit "data", JStr (lit "plan"))])
    ([] ++ {| project_id := 7; project_userId := Some (lit "u1"); name := JStr (lit "Meti");
              clientName := JStr (lit "Acme"); clientId := JNull; data := JNull;
              updatedAt := 0 |} :: [])
  = (Some {| status := 200; body := JStr (lit "plan") |},
     [] ++ {| project_id := 7; project_userId := Some (lit "u1");
              name := JStr (lit "Meti"); clientName := JStr (lit "Acme"); clientId := JNull;
              data := JStr (lit "plan"); updatedAt := 1700000000000 |} :: []).
Proof.
  apply (put_project_updates_own (fun _ => Some 7)
           (fun v => match v with JUndefined => Some id | _ => Some (fun _ => v) end)
           (fun v => match v with JUndefined => Some id | _ => Some (fun _ => v) end)
           (fun p => data p)
           1700000000000 (lit "u1") (lit "7") [(lit "data", JStr (lit "plan"))] [] []
           {| project_id := 7; project_userId := Some (lit "u1"); name := JStr (lit "Meti");
              clientName := JStr (lit "Acme"); clientId := JNull; data := JNull;
              updatedAt := 0 |}
           (fun _ => JStr (lit "plan")) id id);
    solve [reflexivity | constructor].
Defined.

(** * Further properties of the fallback *)

(** ** Fence markers *)

Lemma replace_fences_plain (s r : jsstring) :
  Forall (fun c => c <> 96) s ->
  replace_fences 0 (s ++ r) = s ++ replace_fences 0 r.
Proof.
  induction 1 as [|c s Hc _ IH]; [reflexivity|].
  change ((c :: s) ++ r) with (c :: (s ++ r)).
  assert (Hno : forall p, starts_with (96 :: p) (c :: s ++ r) = false).
  { intros p. cbn [starts_with]. apply N.eqb_neq in Hc. rewrite N.eqb_sym in Hc.
    now rewrite Hc. }
  cbn [replace_fences].
  change fence_json with (96 :: lit "``json"). change fence with (96 :: lit "``").
  rewrite !Hno. now rewrite IH.
Qed.

Lemma replace_fences_json (s : jsstring) :
  replace_fences 0 (fence_json ++ s) = replace_fences 0 s.
Proof. reflexivity. Qed.

Lemma replace_fences_fence (c : N) (s : jsstring) :
  c <> 106 ->
  replace_fences 0 (fence ++ c :: s) = replace_fences 0 (c :: s).
Proof.
  intros Hc. apply N.eqb_neq in Hc. rewrite N.eqb_sym in Hc.
  change (fence ++ c :: s) with (96 :: 96 :: 96 :: c :: s).
  cbn [replace_fences].
  change fence_json with [96; 96; 96; 106; 115; 111; 110].
  change fence with [96; 96; 96].
  cbn [starts_with]. rewrite !N.eqb_refl, Hc. reflexivity.
Qed.

(** ** White space *)

Lemma js_space_not_token (c : N) (out : list token) (st : lexstate)
    (out' : list token) :
  is_js_space c = true ->
  lex_idle c out = Some (st, out') -> st = LIdle /\ out' = out.
Proof.
  intros Hspace. unfold lex_idle.
  destruct (is_json_ws c); [now intros [= <- <-]|].
  repeat match goal with
         | |- context [(c =? ?n)%N] =>
             destruct (N.eqb_spec c n) as [->|_];
             [vm_compute in Hspace; discriminate Hspace|]
         end.
  destruct (is_word_char c) eqn:Hword; [|discriminate].
  exfalso. unfold is_js_space, is_word_char in *.
  repeat rewrite ?orb_true_iff, ?andb_true_iff, ?N.eqb_eq, ?N.leb_le in *.
  lia.
Qed.

Lemma json_ws_js_space (c : N) : is_json_ws c = true -> is_js_space c = true.
Proof.
  unfold is_json_ws, is_js_space.
  repeat rewrite ?orb_true_iff, ?andb_true_iff, ?N.eqb_eq, ?N.leb_le. lia.
Qed.

Lemma js_space_not_backtick (c : N) : is_js_space c = true -> c <> 96.
Proof. intros H ->. vm_compute in H. discriminate. Qed.

Lemma lex_trim_start (out : list token) (s : jsstring) (ts : list token) :
  lex_from LIdle out s = Some ts -> lex_from LIdle out (trim_start s) = Some ts.
Proof.
  induction s as [|c s IH]; [trivial|]. simpl.
  destruct (is_js_space c) eqn:Hspace; [|trivial].
  destruct (lex_idle c out) as [[st out']|] eqn:Hidle; [|discriminate].
  destruct (js_space_not_token _ _ _ _ Hspace Hidle) as [-> ->]. exact IH.
Qed.

Lemma lex_pad_start (pad s : jsstring) :
  Forall (fun c => is_js_space c = true) pad ->
  forall out ts, lex_from LIdle out s = Some ts ->
                 lex_from LIdle out (trim_start (pad ++ s)) = Some ts.
Proof.
  induction 1 as [|c pad Hc _ IH]; intros out ts Hs; simpl.
  - now apply lex_trim_start.
  - rewrite Hc. now apply IH.
Qed.

Lemma trim_start_pad (pad s : jsstring) :
  Forall (fun c => is_js_space c = true) pad ->
  trim_start (pad ++ s) = trim_start s.
Proof. induction 1 as [|c pad Hc _ IH]; simpl; [reflexivity|now rewrite Hc]. Qed.

(** A space after the end of a text that lexes changes nothing, and a
    text that lexes with a space at its end lexes without it. *)
Lemma lex_space_end (c : N) (s : jsstring) :
  is_js_space c = true ->
  forall st out ts,
    lex_from st out (s ++ [c]) = Some ts -> lex_from st out s = Some ts.
Proof.
  intros Hspace. induction s as [|x s IH]; intros st out ts; simpl.
  - destruct (lex_step st out c) as [[st' out']|] eqn:Hstep; [|discriminate].
    destruct st; simpl in Hstep.
    + destruct (js_space_not_token _ _ _ _ Hspace Hstep) as [-> ->]. trivial.
    + repeat match type of Hstep with
             | context [(c =? ?n)%N] =>
                 destruct (N.eqb_spec c n) as [->|_];
                 [vm_compute in Hspace; discriminate Hspace|]
             end.
      destruct (c <? 32)%N; [discriminate|].
      injection Hstep as <- <-. discriminate.
    + destruct (N.eqb_spec c 117) as [->|_];
        [vm_compute in Hspace; discriminate|].
      unfold simple_escape in Hstep.
      repeat match type of Hstep with
             | context [(c =? ?n)%N] =>
                 destruct (N.eqb_spec c n) as [->|_];
                 [vm_compute in Hspace; discriminate Hspace|]
             end.
      discriminate.
    + destruct (hex_value c) as [h|] eqn:Hhex; [|discriminate].
      exfalso. unfold hex_value, is_js_space in *.
      repeat match type of Hhex with
             | context [if ?b then _ else _] => destruct b eqn:?
             end; try discriminate;
        repeat rewrite ?orb_true_iff, ?andb_true_iff, ?N.eqb_eq, ?N.leb_le in *; lia.
    + destruct (is_word_char c) eqn:Hword.
      * exfalso. unfold is_js_space, is_word_char in *.
        repeat rewrite ?orb_true_iff, ?andb_true_iff, ?N.eqb_eq, ?N.leb_le in *. lia.
      * destruct (word_token (List.rev acc)) as [t|]; [|discriminate].
        destruct (js_space_not_token _ _ _ _ Hspace Hstep) as [-> ->]. trivial.
  - destruct (lex_step st out x) as [[st' out']|]; [apply IH|trivial].
Qed.

Lemma lex_trim_end (s : jsstring) :
  forall ts, lex s = Some ts -> lex (List.rev (trim_start (List.rev s))) = Some ts.
Proof.
  induction s as [|c s IH] using rev_ind; intros ts Hs; [assumption|].
  rewrite rev_app_distr. simpl.
  destruct (is_js_space c) eqn:Hspace.
  - apply IH. now apply (lex_space_end c).
  - change (c :: List.rev s) with (List.rev [c] ++ List.rev s).
    now rewrite <- rev_app_distr, rev_involutive.
Qed.

(** [JSON.parse] of a trimmed text: trimming loses nothing that parses. *)
Lemma JSON_parse_trim (s : jsstring) (v : jsval) :
  JSON_parse s = Some v -> JSON_parse (trim s) = Some v.
Proof.
  unfold JSON_parse, trim. destruct (lex s) as [ts|] eqn:Hlex; [|discriminate].
  intros Hparse.
  assert (Hstart : lex (trim_start s) = Some ts) by now apply lex_trim_start.
  now rewrite (lex_trim_end _ _ Hstart).
Qed.

Lemma trim_start_all_space (s : jsstring) :
  Forall (fun c => is_js_space c = true) s -> trim_start s = [].
Proof. induction 1 as [|c s Hc _ IH]; simpl; [reflexivity|now rewrite Hc]. Qed.

Lemma trim_start_app (s pad : jsstring) :
  trim_start s <> [] -> trim_start (s ++ pad) = trim_start s ++ pad.
Proof.
  induction s as [|c s IH]; simpl; [congruence|].
  destruct (is_js_space c); [exact IH|reflexivity].
Qed.

Lemma parsed_text_not_blank (s : jsstring) (v : jsval) :
  JSON_parse s = Some v -> trim_start s <> [].
Proof.
  unfold JSON_parse. destruct (lex s) as [ts|] eqn:Hlex; [|discriminate].
  intros Hparse Hblank. apply lex_trim_start in Hlex. rewrite Hblank in Hlex.
  injection Hlex as <-. discriminate.
Qed.

Lemma trim_pad (pad1 s pad2 : jsstring) (v : jsval) :
  Forall (fun c => is_js_space c = true) pad1 ->
  Forall (fun c => is_js_space c = true) pad2 ->
  JSON_parse s = Some v ->
  trim (pad1 ++ s ++ pad2) = trim s.
Proof.
  intros Hpad1 Hpad2 Hparse. unfold trim.
  rewrite trim_start_pad by assumption.
  rewrite trim_start_app by (eapply parsed_text_not_blank; eassumption).
  rewrite rev_app_distr, trim_start_pad; [reflexivity|].
  apply List.Forall_forall. intros c Hc%in_rev.
  rewrite List.Forall_forall in Hpad2. auto.
Qed.

(** ** Recovery *)

(** The fallback recovers every JSON text that the model has wrapped in a
    fence: for a text that opens with the marker [```json], or with the
    marker [```] and a line break or space, that may close with the marker
    [```], and that holds between them, with any white space around it, a
    text free of backticks that parses, the strict parse fails and the
    fallback gives the value of the inner text. *)
Theorem fenced_json_recovered (result : GenResponse)
    (opener pad1 inner pad2 closer : jsstring) (v : jsval) :
  opener = fence_json \/ (opener = fence /\ pad1 <> []) ->
  closer = fence \/ closer = [] ->
  Forall (fun c => is_js_space c = true) pad1 ->
  Forall (fun c => is_js_space c = true) pad2 ->
  Forall (fun c => c <> 96) inner ->
  JSON_parse inner = Some v ->
  text result = Some (opener ++ pad1 ++ inner ++ pad2 ++ closer) ->
  JSON_parse (opener ++ pad1 ++ inner ++ pad2 ++ closer) = None
  /\ parse_output result = Ok v.
Proof.
  intros Hopener Hcloser Hpad1 Hpad2 Hinner Hparse Htext.
  assert (Hstrict : JSON_parse (opener ++ pad1 ++ inner ++ pad2 ++ closer) = None)
    by (destruct Hopener as [-> | [-> _]]; reflexivity).
  split; [assumption|].
  unfold parse_output. rewrite Htext. simpl default. rewrite Hstrict.
  assert (Hbody : replace_fences 0 (opener ++ pad1 ++ inner ++ pad2 ++ closer)
                  = pad1 ++ inner ++ pad2).
  { assert (Hrest : replace_fences 0 (pad1 ++ inner ++ pad2 ++ closer)
                    = pad1 ++ inner ++ pad2).
    { replace (pad1 ++ inner ++ pad2 ++ closer)
        with ((pad1 ++ inner ++ pad2) ++ closer) by now rewrite <- !app_assoc.
      rewrite replace_fences_plain.
      - destruct Hcloser as [-> | ->];
          [change (replace_fences 0 fence) with (@nil N)|simpl];
          now rewrite app_nil_r.
      - rewrite !Forall_app. repeat split; [|assumption|];
          (eapply List.Forall_impl; [|eassumption]); apply js_space_not_backtick. }
    destruct Hopener as [-> | [-> Hnonempty]].
    - now rewrite replace_fences_json.
    - destruct pad1 as [|c pad1]; [congruence|].
      change ((c :: pad1) ++ inner ++ pad2 ++ closer)
        with (c :: (pad1 ++ inner ++ pad2 ++ closer)) in *.
      rewrite replace_fences_fence; [exact Hrest|].
      inversion Hpad1 as [|? ? Hc _]; subst.
      intros ->. vm_compute in Hc. discriminate. }
  rewrite Hbody, (trim_pad pad1 inner pad2 v) by assumption.
  now rewrite (JSON_parse_trim inner v).
Qed.

Lemma fenced_json_recovered_witness :
  JSON_parse (fence_json ++ [10] ++ (lit "{" ++ dq ++ lit "score" ++ dq ++ lit ": 72}")
                ++ [10] ++ fence) = None
  /\ parse_output (Sample.answer Sample.fenced_score) = Ok Sample.score_72.
Proof.
  apply (fenced_json_recovered (Sample.answer Sample.fenced_score) fence_json [10]
           (lit "{" ++ dq ++ lit "score" ++ dq ++ lit ": 72}") [10] fence).
  - now left.
  - now left.
  - repeat constructor.
  - repeat constructor.
  - apply List.Forall_forall. intros c Hc ->. vm_compute in Hc. intuition discriminate.
  - vm_compute; reflexivity.
  - reflexivity.
Defined.

(** On a text without fence markers the fallback adds nothing but the
    trimming: the reply is the value of the trimmed text if that parses
    and a failure otherwise, so that prose before or after the JSON is
    never removed. *)
Theorem unfenced_text_only_trimmed (result : GenResponse) (s : jsstring) :
  text result = Some s ->
  Forall (fun c => c <> 96) s ->
  parse_output result = match JSON_parse (trim s) with
                        | Some v => Ok v
                        | None => Throw SyntaxError
                        end.
Proof.
  intros Htext Hplain. unfold parse_output. rewrite Htext. simpl default.
  destruct (JSON_parse s) as [v|] eqn:Hstrict.
  - now rewrite (JSON_parse_trim s v).
  - rewrite <- (app_nil_r s) at 1. rewrite replace_fences_plain by assumption.
    simpl. rewrite app_nil_r. reflexivity.
Qed.

Lemma unfenced_text_only_trimmed_witness :
  parse_output (Sample.answer (lit "Here is the JSON: []")) = Throw SyntaxError.
Proof.
  rewrite (unfenced_text_only_trimmed _ (lit "Here is the JSON: []")).
  - vm_compute; reflexivity.
  - reflexivity.
  - apply List.Forall_forall. intros c Hc ->. vm_compute in Hc. intuition discriminate.
Defined.

(** * Control characters in prompts *)

(** Induction on values, with the elements of arrays and the values of
    properties as premises. *)
Lemma jsval_nested_ind (P : jsval -> Prop) :
  P JUndefined -> P JNull -> (forall b, P (JBool b)) -> (forall m e, P (JNum m e)) ->
  (forall s, P (JStr s)) ->
  (forall elems, Forall P elems -> P (JArr elems)) ->
  (forall props, Forall (fun kv => P (snd kv)) props -> P (JObj props)) ->
  forall v, P v.
Proof.
  intros HU HN HB HNum HS HA HO.
  fix IH 1. intros [| |b|m e|s|elems|props];
    [exact HU|exact HN|apply HB|apply HNum|apply HS| |].
  - apply HA. induction elems as [|x elems IHl]; constructor; [apply IH|exact IHl].
  - apply HO. induction props as [|[k x] props IHl]; constructor; [apply IH|exact IHl].
Qed.

Section Printable.

(** Code units from U+0020 on. *)
Let printable (s : jsstring) : Prop := Forall (fun c => 32 <= c)%N s.

Lemma printable_literal (s : jsstring) :
  forallb (fun c => 32 <=? c)%N s = true -> printable s.
Proof.
  unfold printable. rewrite forallb_forall, List.Forall_forall.
  intros H c Hc. now apply N.leb_le, H.
Qed.

Lemma printable_app (a b : jsstring) : printable a -> printable b -> printable (a ++ b).
Proof. intros. now apply Forall_app. Qed.

Lemma hex_digit_printable (n : N) : (32 <= hex_digit n)%N.
Proof. unfold hex_digit. destruct (n <? 10)%N; lia. Qed.

Lemma quote_units_printable (s : jsstring) (paired : bool) :
  printable (quote_units paired s).
Proof.
  revert paired. induction s as [|c s IH]; intros paired; [constructor|].
  cbn [quote_units].
  assert (Hesc : forall x, printable (unicode_escape x ++ quote_units false s)).
  { intros x. apply printable_app; [|apply IH].
    repeat constructor; try apply hex_digit_printable; unfold backslash; lia. }
  repeat match goal with
         | |- context [if (c =? ?n)%N then _ else _] =>
             destruct (c =? n)%N;
             [apply printable_app; [apply printable_literal; reflexivity|apply IH]|]
         end.
  destruct (N.ltb_spec c 32); [apply Hesc|].
  destruct (is_high_surrogate c).
  { destruct s as [|c' s']; [|destruct (is_low_surrogate c')].
    - repeat constructor; try apply hex_digit_printable; unfold backslash; lia.
    - constructor; [assumption|apply IH].
    - apply Hesc. }
  destruct (is_low_surrogate c); [destruct paired|];
    try apply Hesc; (constructor; [assumption|apply IH]).
Qed.

Lemma quote_printable (s : jsstring) : printable (quote s).
Proof.
  unfold quote. apply printable_app; [apply printable_literal; reflexivity|].
  apply printable_app; [apply quote_units_printable|apply printable_literal; reflexivity].
Qed.

Lemma uint_printable (d : Decimal.uint) :
  printable (lit (NilEmpty.string_of_uint d)).
Proof.
  assert (Hcons : forall a s, lit (String a s) = N_of_ascii a :: lit s) by reflexivity.
  induction d; cbn [NilEmpty.string_of_uint]; rewrite ?Hcons;
    try (constructor; [apply N.leb_le; reflexivity|assumption]).
  constructor.
Qed.

Lemma digits_of_printable (n : N) : printable (digits_of n).
Proof.
  unfold digits_of, NilZero.string_of_uint.
  destruct (N.to_uint n) eqn:E; try (rewrite <- E; apply uint_printable).
  apply printable_literal; reflexivity.
Qed.

Lemma drop_zeros_printable (s : jsstring) : printable s -> printable (drop_zeros s).
Proof.
  induction 1 as [|c s Hc Hs IH]; simpl; [constructor|].
  destruct (c =? 48)%N; [assumption|now constructor].
Qed.

Local Ltac printable_parts Hs Hzeros :=
  unfold printable in *;
  repeat lazymatch goal with
         | |- Forall _ (if ?b then _ else _) => destruct b
         | |- Forall _ (_ ++ _) => apply Forall_app; split
         | |- Forall _ (take _ _) => apply Forall_take
         | |- Forall _ (drop _ _) => apply Forall_drop
         | |- Forall _ (List.repeat _ _) => apply Hzeros
         | |- Forall _ (digits_of _) => apply digits_of_printable
         | |- Forall _ (List.rev _) => exact Hs
         | |- Forall _ (lit _) => apply printable_literal; reflexivity
         | |- Forall _ [] => constructor
         end.

Lemma number_to_string_printable (m e : Z) : printable (number_to_string m e).
Proof.
  unfold number_to_string.
  assert (Hs : printable (List.rev (drop_zeros (List.rev (digits_of (Z.abs_N m)))))).
  { unfold printable. apply Forall_rev, drop_zeros_printable.
    unfold printable. apply Forall_rev, digits_of_printable. }
  assert (Hzeros : forall z, printable (List.repeat 48 z)).
  { intros z. induction z; simpl; constructor; [lia|assumption]. }
  cbv zeta. printable_parts Hs Hzeros.
Qed.

Lemma join_printable (sep : jsstring) (l : list jsstring) :
  printable sep -> Forall printable l -> printable (join sep l).
Proof.
  intros Hsep. induction 1 as [|x l Hx Hl IH]; [constructor|].
  destruct l as [|y l]; [exact Hx|].
  change (join sep (x :: y :: l)) with (x ++ sep ++ join sep (y :: l)).
  now repeat apply printable_app.
Qed.

Lemma Some_eq_inv {A} (a b : A) : Some a = Some b -> a = b.
Proof. now intros [= ->]. Qed.

(** [JSON.stringify] writes no code unit below U+0020. *)
Lemma stringify_printable (v : jsval) (t : jsstring) :
  stringify v = Some t -> printable t.
Proof.
  revert t. induction v as [| |b|m e|s|elems IH|props IH] using jsval_nested_ind;
    intros t; cbn [stringify].
  - discriminate.
  - intros Ht; apply Some_eq_inv in Ht; subst t. apply printable_literal; reflexivity.
  - destruct b; intros Ht; apply Some_eq_inv in Ht; subst t; apply printable_literal; reflexivity.
  - intros Ht; apply Some_eq_inv in Ht; subst t. apply number_to_string_printable.
  - intros Ht; apply Some_eq_inv in Ht; subst t. apply quote_printable.
  - intros Ht; apply Some_eq_inv in Ht; subst t.
    apply printable_app; [apply printable_literal; reflexivity|].
    apply printable_app; [|apply printable_literal; reflexivity].
    apply join_printable; [apply printable_literal; reflexivity|].
    apply List.Forall_forall. intros x [y [<- Hy]]%in_map_iff.
    rewrite List.Forall_forall in IH.
    destruct (stringify y) as [t|] eqn:Hs; simpl.
    + exact (IH y Hy t Hs).
    + apply printable_literal; reflexivity.
  - intros Ht; apply Some_eq_inv in Ht; subst t.
    apply printable_app; [apply printable_literal; reflexivity|].
    apply printable_app; [|apply printable_literal; reflexivity].
    apply join_printable; [apply printable_literal; reflexivity|].
    apply List.Forall_forall. intros x [l [[kv [<- Hkv]]%in_map_iff Hl]]%in_concat.
    cbv beta in Hl.
    rewrite List.Forall_forall in IH.
    destruct (stringify (snd kv)) as [t|] eqn:Hs; [|destruct Hl].
    destruct Hl as [<-|[]].
    apply printable_app; [apply quote_printable|].
    apply printable_app; [apply printable_literal; reflexivity|].
    exact (IH kv Hkv t Hs).
Qed.

Lemma cleanInput_printable (v : jsval) : printable (cleanInput v).
Proof.
  eapply List.Forall_impl; [|apply cleanInput_clean].
  intros c Hc. simpl in Hc. unfold is_control in Hc.
  apply orb_false_iff in Hc as [Hc _]. apply N.leb_gt in Hc. lia.
Qed.

(** No prompt of the table carries a raw code unit below U+0020, such as a
    line break, an escape or a NUL, whatever the payload: the fields are
    sanitized, and the history of [chat_reply], which is not, goes through
    [JSON.stringify], which escapes these units. *)
Theorem prompts_have_no_low_control (name : jsstring) (cfg : AgentConfig)
    (d : jsval) (p : jsstring) :
  In (name, cfg) AI_AGENTS ->
  prompt cfg d = Ok p ->
  Forall (fun c => 32 <= c)%N p.
Proof.
  intros Hin Hp.
  destruct (str_eqb name (lit "chat_reply")) eqn:Hname.
  - apply str_eqb_eq in Hname. subst name.
    assert (Hcfg : prompt cfg = Prompt.chat_reply).
    { assert (Hall : Forall (fun e => fst e = lit "chat_reply" ->
                                      prompt (snd e) = Prompt.chat_reply) AI_AGENTS).
      { unfold AI_AGENTS.
        repeat (apply Forall_cons; split); [> .. | apply List.Forall_nil ].
        all: intros Hname; try reflexivity.
        all: exfalso; cbn [fst] in Hname; vm_compute in Hname; discriminate Hname. }
      rewrite List.Forall_forall in Hall. exact (Hall _ Hin eq_refl). }
    rewrite Hcfg in Hp. open_prompt Hp. apply Ok_inj in Hp. subst p.
    repeat lazymatch goal with
           | |- Forall _ (_ ++ _) => apply Forall_app; split
           | |- Forall _ (cleanInput _) => apply cleanInput_printable
           | |- Forall _ (lit _) => apply printable_literal; reflexivity
           | |- Forall _ (JSON_stringify_text ?v) =>
               unfold JSON_stringify_text;
               destruct (stringify v) as [t|] eqn:Hs; simpl;
               [exact (stringify_printable _ _ Hs)|apply printable_literal; reflexivity]
           end.
  - assert (Hne : name <> lit "chat_reply").
    { intros ->. now rewrite str_eqb_refl in Hname. }
    destruct (prompts_clean_and_bounded name cfg d p Hin Hne Hp) as [Hclean _].
    eapply List.Forall_impl; [|exact Hclean].
    intros c Hc. simpl in Hc. unfold is_control in Hc.
    apply orb_false_iff in Hc as [Hc _]. apply N.leb_gt in Hc. lia.
Qed.

End Printable.

Lemma prompts_have_no_low_control_witness :
  exists p, Prompt.chat_reply (Sample.chat [10; 27; 127]) = Ok p
            /\ Forall (fun c => 32 <= c)%N p.
Proof.
  eexists. split; [reflexivity|].
  apply (prompts_have_no_low_control (lit "chat_reply")
           {| model := flash; prompt := Prompt.chat_reply; tools := None; schema := None |}
           (Sample.chat [10; 27; 127])).
  - unfold AI_AGENTS. do 9 right. left. reflexivity.
  - reflexivity.
Defined.

(** * The chat client *)

(** ** Histories *)

Lemma replies_answer_app (a b : list ChatMessage) (after_user : bool) :
  replies_answer after_user (a ++ b) = true ->
  replies_answer after_user a = true.
Proof.
  revert after_user. induction a as [|m a IH]; intros after_user; simpl; [reflexivity|].
  destruct (str_eqb (chat_role m) (lit "user")); [apply IH|].
  intros [-> H]%andb_true_iff. now rewrite (IH _ H).
Qed.

Lemma replies_answer_snoc_user (h : list ChatMessage) (t : jsstring) (after_user : bool) :
  replies_answer after_user h = true ->
  replies_answer after_user (h ++ [user_message t]) = true.
Proof.
  revert after_user. induction h as [|m h IH]; intros after_user; simpl; [reflexivity|].
  destruct (str_eqb (chat_role m) (lit "user")); [apply IH|].
  intros [-> H]%andb_true_iff. now rewrite (IH _ H).
Qed.

Lemma replies_answer_exchange (h : list ChatMessage) (t : jsstring) (r : jsval)
    (after_user : bool) :
  replies_answer after_user h = true ->
  replies_answer after_user (h ++ [user_message t; model_message r]) = true.
Proof.
  revert after_user. induction h as [|m h IH]; intros after_user; simpl; [reflexivity|].
  destruct (str_eqb (chat_role m) (lit "user")); [apply IH|].
  intros [-> H]%andb_true_iff. now rewrite (IH _ H).
Qed.

(** ** Conversations with overlapping calls *)

Section Conversation.

Variable productName persona : jsval.

Let step := chat_step productName persona.
Let users (h : list ChatMessage) : nat := length (List.filter is_user h).
Let replies (h : list ChatMessage) : nat :=
  length (List.filter (fun m => negb (is_user m)) h).

(** No prefix of the history holds more replies than messages of the
    user. *)
Let balanced (h : list ChatMessage) : Prop :=
  forall n, (replies (take n h) <= users (take n h))%nat.

Lemma balanced_snoc (h : list ChatMessage) (m : ChatMessage) :
  balanced h ->
  (replies (h ++ [m]) <= users (h ++ [m]))%nat ->
  balanced (h ++ [m]).
Proof.
  intros Hh Hm n. rewrite take_app.
  destruct (n - length h)%nat as [|k] eqn:Hn.
  - rewrite take_0, app_nil_r. apply Hh.
  - rewrite take_ge by lia. simpl take. rewrite take_nil. exact Hm.
Qed.

Lemma count_snoc (h : list ChatMessage) (m : ChatMessage) :
  users (h ++ [m]) = (users h + if is_user m then 1 else 0)%nat
  /\ replies (h ++ [m]) = (replies h + if is_user m then 0 else 1)%nat.
Proof.
  unfold users, replies. rewrite !List.filter_app, !length_app. simpl.
  destruct (is_user m); simpl; lia.
Qed.

(** What every step keeps: the history is balanced, and with the calls
    still suspended there are no more replies than messages. *)
Lemma step_keeps_balance (st : Chat) (ev : ChatEvent) :
  balanced (chat_history st)
  /\ (replies (chat_history st) + length (chat_in_flight st) <= users (chat_history st))%nat ->
  balanced (chat_history (step st ev))
  /\ (replies (chat_history (step st ev)) + length (chat_in_flight (step st ev))
      <= users (chat_history (step st ev)))%nat.
Proof.
  intros [Hbal Hcount]. destruct ev as [message|i result]; simpl.
  - destruct (count_snoc (chat_history st) (user_message message)) as [Hu Hr].
    change (is_user (user_message message)) with true in *. cbv iota in Hu, Hr.
    split; [apply balanced_snoc; [assumption|lia]|].
    rewrite length_app. simpl. lia.
  - destruct (chat_in_flight st !! i) as [payload|] eqn:Hi; [|now split].
    pose proof (lookup_lt_Some _ _ _ Hi) as Hlt.
    pose proof (length_delete (chat_in_flight st) i (mk_is_Some _ _ Hi)) as Hdel.
    simpl. destruct (exn_bind result chat_result) as [responseText|e].
    + destruct (count_snoc (chat_history st) (model_message responseText)) as [Hu Hr].
      change (is_user (model_message responseText)) with false in *. cbv iota in Hu, Hr.
      split; [apply balanced_snoc; [assumption|lia]|]. lia.
    + split; [assumption|lia].
Qed.

Lemma run_keeps_balance (evs : list ChatEvent) (st : Chat) :
  balanced (chat_history st)
  /\ (replies (chat_history st) + length (chat_in_flight st) <= users (chat_history st))%nat ->
  balanced (chat_history (fold_left step evs st))
  /\ (replies (chat_history (fold_left step evs st))
      + length (chat_in_flight (fold_left step evs st))
      <= users (chat_history (fold_left step evs st)))%nat.
Proof.
  revert st. induction evs as [|ev evs IH]; intros st Hst; [exact Hst|].
  simpl. apply IH, step_keeps_balance, Hst.
Qed.

Lemma run_keeps_messages (evs : list ChatEvent) (st : Chat) :
  List.filter is_user (chat_history (fold_left step evs st))
  = List.filter is_user (chat_history st) ++ List.map user_message (calls evs).
Proof.
  revert st. induction evs as [|ev evs IH]; intros st; simpl.
  - now rewrite app_nil_r.
  - rewrite IH. destruct ev as [message|i result]; simpl.
    + rewrite List.filter_app, <- app_assoc. reflexivity.
    + destruct (chat_in_flight st !! i); [|reflexivity]. simpl.
      destruct (exn_bind result chat_result); [|reflexivity].
      rewrite List.filter_app. simpl. now rewrite app_nil_r.
Qed.

(** Without overlap, between two exchanges no call is suspended and every
    reply answers a message; while a call is suspended, it is the only
    one and the history ends with its message. *)
Lemma run_sequential (evs : list ChatEvent) (waiting : bool) (st : Chat) :
  sequential waiting evs = true ->
  replies_answer false (chat_history st) = true ->
  (if waiting
   then exists h message payload,
          chat_history st = h ++ [user_message message]
          /\ chat_in_flight st = [payload]
   else chat_in_flight st = []) ->
  replies_answer false (chat_history (fold_left step evs st)) = true.
Proof.
  revert waiting st. induction evs as [|ev evs IH]; intros waiting st; simpl;
    [trivial|].
  destruct ev as [message|i result].
  - intros [Hw Hseq]%andb_true_iff Hst Hflight.
    destruct waiting; [discriminate|]. simpl in Hflight.
    apply (IH true); [assumption| |]; simpl.
    + now apply replies_answer_snoc_user.
    + rewrite Hflight. eauto.
  - intros [[Hw Hi]%andb_true_iff Hseq]%andb_true_iff Hst Hflight.
    destruct waiting; [|discriminate]. apply Nat.eqb_eq in Hi. subst i.
    destruct Hflight as (h & message & payload & Hh & Hp).
    apply (IH false); [assumption| |]; simpl; rewrite Hp; simpl; [|reflexivity].
    destruct (exn_bind result chat_result) as [responseText|e]; [|assumption].
    rewrite Hh in *. rewrite <- app_assoc. simpl.
    apply replies_answer_exchange. now apply replies_answer_app in Hst.
Qed.

Lemma run_sequential_transcript (evs : list ChatEvent) (waiting : bool) (st : Chat) :
  sequential waiting evs = true ->
  (if waiting then exists payload, chat_in_flight st = [payload]
   else chat_in_flight st = []) ->
  chat_history (fold_left step evs st) = chat_history st ++ transcript evs.
Proof.
  unfold transcript.
  revert waiting st. induction evs as [|ev evs IH]; intros waiting st; simpl;
    [now rewrite app_nil_r|].
  destruct ev as [message|i result].
  - intros [Hw Hseq]%andb_true_iff Hflight.
    destruct waiting; [discriminate|]. simpl in Hflight.
    rewrite (IH true); [|assumption|simpl; rewrite Hflight; eauto].
    simpl. now rewrite <- app_assoc.
  - intros [[Hw Hi]%andb_true_iff Hseq]%andb_true_iff Hflight.
    destruct waiting; [|discriminate]. apply Nat.eqb_eq in Hi. subst i.
    destruct Hflight as (payload & Hp).
    rewrite (IH false); [|assumption|simpl; rewrite Hp; reflexivity].
    simpl. rewrite Hp. simpl.
    destruct (exn_bind result chat_result); [now rewrite <- app_assoc|reflexivity].
Qed.

(** The conversation kept by [createSalesChat], under every schedule of
    calls and answers, overlapping or not, and whatever the route answers:
    the history holds every message of the user, in the order of the
    calls, a failed send included; no prefix of it holds more replies than
    messages; replies and suspended calls together are never more than the
    messages.  When the calls do not overlap, the history is the
    transcript of the schedule, each message followed by its reply, or by
    nothing when its send has failed, so that every reply directly follows
    a message of the user. *)
Theorem conversation_invariant (evs : list ChatEvent) :
  List.filter is_user (chat_history (chat_run productName persona evs))
  = List.map user_message (calls evs)
  /\ (forall n,
        (length (List.filter (fun m => negb (is_user m))
                   (take n (chat_history (chat_run productName persona evs))))
         <= length (List.filter is_user
                      (take n (chat_history (chat_run productName persona evs)))))%nat)
  /\ (length (List.filter (fun m => negb (is_user m))
                (chat_history (chat_run productName persona evs)))
      + length (chat_in_flight (chat_run productName persona evs))
      <= length (calls evs))%nat
  /\ (sequential false evs = true ->
      chat_history (chat_run productName persona evs) = transcript evs
      /\ replies_answer false (chat_history (chat_run productName persona evs)) = true).
Proof.
  unfold chat_run.
  pose proof (run_keeps_messages evs {| chat_history := []; chat_in_flight := [] |})
    as Hmessages.
  destruct (run_keeps_balance evs {| chat_history := []; chat_in_flight := [] |})
    as [Hbal Hcount].
  { cbn [chat_history chat_in_flight].
    split; [intros n; rewrite take_nil|]; unfold users, replies; simpl; lia. }
  simpl in Hmessages. fold step.
  split; [exact Hmessages|]. split; [exact Hbal|]. split.
  - unfold users, replies in Hcount. rewrite Hmessages, length_map in Hcount.
    exact Hcount.
  - intros Hseq. split; [|now apply (run_sequential evs false)].
    now apply (run_sequential_transcript evs false).
Qed.

End Conversation.

(** Two calls that overlap: the second starts while the first is
    suspended, and the history has the two messages first and the two
    replies after them. *)
Example overlapping_calls :
  chat_history
    (chat_run JNull JNull
       [Call (lit "a"); Call (lit "b");
        Settle 0 (Ok (JStr (lit "x"))); Settle 0 (Ok (JStr (lit "y")))])
  = [user_message (lit "a"); user_message (lit "b");
     model_message (JStr (lit "x")); model_message (JStr (lit "y"))].
Proof. reflexivity. Qed.

(** ** The simulator *)

Section Chat.

Variable executeAI : jsstring -> jsval -> exn jsval.
Variable productName persona : jsval.

Lemma trim_blank (s : jsstring) :
  trim s = [] <-> Forall (fun c => is_js_space c = true) s.
Proof.
  unfold trim. split.
  - intros H. apply (f_equal (@List.rev N)) in H. rewrite rev_involutive in H.
    simpl in H.
    assert (Hstart : trim_start s = []).
    { destruct (trim_start s) as [|c r] eqn:E; [reflexivity|].
      exfalso.
      assert (Hlast : forall l : jsstring, trim_start l = [] ->
                       Forall (fun c => is_js_space c = true) l).
      { induction l as [|x l IH]; simpl; [constructor|].
        destruct (is_js_space x) eqn:Hx; [|discriminate]. constructor; auto. }
      apply Hlast in H. apply Forall_rev in H. rewrite rev_involutive in H.
      assert (Hhead : is_js_space c = false).
      { clear -E. induction s as [|x s IH]; simpl in E; [discriminate|].
        destruct (is_js_space x) eqn:Hx; [auto|]. now injection E as <- _. }
      inversion H; congruence. }
    clear H. induction s as [|x s IH]; simpl in *; [constructor|].
    destruct (is_js_space x) eqn:Hx; [|discriminate]. constructor; auto.
  - intros H. now rewrite (trim_start_all_space s H).
Qed.

(** The simulator of [StepSales]: an input of white space alone is not
    sent and changes nothing; any other input adds exactly two messages,
    the input as the user typed it and then either the reply of the route
    or, when the send fails, the connection error, and it empties the input
    field and ends the loading. *)
Theorem handleSendMessage_spec (st : SalesState) :
  (Forall (fun c => is_js_space c = true) (inputMessage st) ->
   handleSendMessage executeAI productName persona st = st)
  /\ (~ Forall (fun c => is_js_space c = true) (inputMessage st) ->
      exists reply,
        handleSendMessage executeAI productName persona st
        = {| messages := messages st ++ [user_message (inputMessage st); model_message reply];
             inputMessage := []; chatLoading := false |}
        /\ match sendChatMessage executeAI productName persona
                   (messages st ++ [user_message (inputMessage st)]) with
           | Ok responseText => reply = responseText
           | Throw _ => reply = JStr (lit "Connection error. Please try again.")
           end).
Proof.
  unfold handleSendMessage. split.
  - intros Hblank. apply trim_blank in Hblank. now rewrite Hblank.
  - intros Hinput. rewrite <- trim_blank in Hinput.
    destruct (trim (inputMessage st)) as [|c r]; [congruence|].
    destruct (sendChatMessage _ _ _ _) as [responseText|e];
      eexists; (split; [rewrite <- app_assoc; reflexivity|reflexivity]).
Qed.

(** The simulator keeps the order of a conversation even when sends
    fail: if every reply answered a message of the user before, the same
    holds after. *)
Theorem handleSendMessage_keeps_order (st : SalesState) (after_user : bool) :
  replies_answer after_user (messages st) = true ->
  replies_answer after_user
    (messages (handleSendMessage executeAI productName persona st)) = true.
Proof.
  intros Hst. unfold handleSendMessage.
  destruct (trim (inputMessage st)) as [|c r]; [assumption|]. simpl.
  rewrite <- app_assoc. simpl.
  destruct (sendChatMessage _ _ _ _); now apply replies_answer_exchange.
Qed.

End Chat.

Lemma handleSendMessage_keeps_order_witness :
  replies_answer true
    (messages
       (handleSendMessage (fun _ _ => Throw TypeError) (JStr (lit "Meti")) JNull
          {| messages := [model_message (JStr (lit "Hi, I'm a CTO. What is this about?"))];
             inputMessage := lit "hello"; chatLoading := false |})) = true.
Proof.
  apply (handleSendMessage_keeps_order (fun _ _ => Throw TypeError) (JStr (lit "Meti")) JNull
           {| messages := [model_message (JStr (lit "Hi, I'm a CTO. What is this about?"))];
              inputMessage := lit "hello"; chatLoading := false |} true).
  reflexivity.
Defined.
